(** * Block-distributed vector arithmetic: a shallow embedding

    The development embeds the two C programs of the repository,

    - [mpi_vector_add2.c], the MPI program ([Module Mpi]), and
    - [vector_add2.c], the serial program ([Module Serial]),

    and proves properties of the embedded functions.

    Conventions of the embedding.

    - A C [int] is a [Z].  No [int] operation of the programs can leave the
      32-bit range on the inputs they accept, so no wrap-around is written.
      [%] and [/] are C's truncating operators, [Z.rem] and [Z.quot]; a
      remainder by zero is undefined behaviour.
    - A C [double] is an element of a type [D] with the operations of
      [DoubleOps].  Two instances are given: IEEE binary64 (Rocq's
      primitive floats) and the real numbers, the latter for statements
      about exact arithmetic.
    - A [double] array is a [list D] whose length is the allocated size;
      a read or write outside it is undefined behaviour.
    - The MPI program is modelled for the whole group at once.  A variable
      that every process owns is a list indexed by rank ([per_rank]); a
      collective call is a function on such lists.
    - The environment (standard input, [rand], [malloc], the two output
      channels) is an explicit [World], threaded by the monad [M], whose
      outcomes are normal return, [exit], and undefined behaviour. *)

From Stdlib Require Import ZArith Reals Lra String Ascii DecimalString.
From Stdlib Require Import PrimFloat Uint63.
From stdpp Require Import base list.

Local Open Scope Z_scope.

(** ** Arithmetic on [double] *)

Class DoubleOps (D : Type) := {
  dzero : D;               (* the literal 0.0 *)
  dadd : D -> D -> D;      (* + on double *)
  dmul : D -> D -> D;      (* * on double *)
  of_int : Z -> D          (* the conversion int -> double *)
}.

(** Exact arithmetic: the real numbers. *)
#[export] Instance R_ops : DoubleOps R :=
  {| dzero := 0%R; dadd := Rplus; dmul := Rmult; of_int := IZR |}.

(** Machine arithmetic: IEEE binary64.  The conversion is exact on the
    32-bit range, the only one the programs convert from. *)
Definition float_of_Z (z : Z) : float :=
  if z <? 0 then PrimFloat.opp (PrimFloat.of_uint63 (Uint63.of_Z (- z)))
  else PrimFloat.of_uint63 (Uint63.of_Z z).

#[export] Instance float_ops : DoubleOps float :=
  {| dzero := 0%float; dadd := PrimFloat.add; dmul := PrimFloat.mul;
     of_int := float_of_Z |}.

(** ** The environment *)

(** What [printf] writes, one token per conversion or literal piece. *)
Inductive token (D : Type) : Type :=
| Str (s : string)          (* literal text *)
| Int (z : Z)               (* a [%d] conversion *)
| Lf (d : D)                (* a [%lf] conversion *)
| Clock (fmt : string).     (* a conversion of the elapsed time *)
Arguments Str {D} s.
Arguments Int {D} z.
Arguments Lf {D} d.
Arguments Clock {D} fmt.

Definition nl : string := String "010"%char EmptyString.

(** [%d] of a rank. *)
Definition fmt_rank (r : nat) : string := NilEmpty.string_of_uint (Nat.to_uint r).

Record World (D : Type) : Type := mkWorld {
  stdin : list Z;               (* the integers [scanf("%d")] will read *)
  rand_seq : nat -> Z;          (* the sequence [rand()] returns *)
  rand_pos : nat;               (* how many [rand()] calls were made *)
  mallocs : list (list bool);   (* per rank, the results of its next
                                   [malloc] calls: [false] is NULL; a
                                   call beyond the list succeeds *)
  stdout : list (token D);
  stderr : list string
}.
Arguments mkWorld {D}.
Arguments stdin {D}.
Arguments rand_seq {D}.
Arguments rand_pos {D}.
Arguments mallocs {D}.
Arguments stdout {D}.
Arguments stderr {D}.

Inductive outcome (D A : Type) : Type :=
| Ret (a : A) (w : World D)      (* normal return *)
| Exit (code : Z) (w : World D)  (* every process called [exit(code)] *)
| Undef.                         (* undefined behaviour *)
Arguments Ret {D A}.
Arguments Exit {D A}.
Arguments Undef {D A}.

Definition M (D A : Type) : Type := World D -> outcome D A.

#[export] Instance M_ret {D} : MRet (M D) := fun A a w => Ret a w.
#[export] Instance M_bind {D} : MBind (M D) := fun A B f m w =>
  match m w with
  | Ret a w' => f a w'
  | Exit c w' => Exit c w'
  | Undef => Undef
  end.

(** A variable owned by every process: entry [r] is rank [r]'s copy. *)
Abbreviation per_rank := list (only parsing).

Section Environment.
Context {D : Type}.

Definition undefined {A} : M D A := fun _ => Undef.
Definition exit {A} (code : Z) : M D A := fun w => Exit code w.

(** Updates of one field of the world. *)
Definition set_stdin (l : list Z) (w : World D) : World D :=
  mkWorld l (rand_seq w) (rand_pos w) (mallocs w) (stdout w) (stderr w).
Definition set_rand_pos (k : nat) (w : World D) : World D :=
  mkWorld (stdin w) (rand_seq w) k (mallocs w) (stdout w) (stderr w).
Definition set_mallocs (ms : list (list bool)) (w : World D) : World D :=
  mkWorld (stdin w) (rand_seq w) (rand_pos w) ms (stdout w) (stderr w).
Definition put_stdout (ts : list (token D)) (w : World D) : World D :=
  mkWorld (stdin w) (rand_seq w) (rand_pos w) (mallocs w) (stdout w ++ ts) (stderr w).
Definition put_stderr (lines : list string) (w : World D) : World D :=
  mkWorld (stdin w) (rand_seq w) (rand_pos w) (mallocs w) (stdout w) (stderr w ++ lines).

(** [scanf("%d", p)]; with nothing to read, [*p] stays uninitialised
    and the caller's next read of it is undefined. *)
Definition scanf_d : M D Z := fun w =>
  match stdin w with
  | [] => Undef
  | z :: rest => Ret z (set_stdin rest w)
  end.

Definition rand : M D Z := fun w =>
  Ret (rand_seq w (rand_pos w)) (set_rand_pos (S (rand_pos w)) w).

(** [malloc] at rank [r]: [true] when the pointer is not NULL. *)
Definition malloc (r : nat) : M D bool := fun w =>
  match mallocs w !! r with
  | Some (b :: rest) => Ret b (set_mallocs (<[r := rest]> (mallocs w)) w)
  | _ => Ret true w
  end.

Definition printf (ts : list (token D)) : M D unit := fun w =>
  Ret tt (put_stdout ts w).

Definition fprintf_stderr (lines : list string) : M D unit := fun w =>
  Ret tt (put_stderr lines w).

(** [a % b] on [int]. *)
Definition c_rem (a b : Z) : M D Z :=
  if b =? 0 then undefined else mret (Z.rem a b).

(** [b[i]] as an rvalue. *)
Definition read (b : list D) (i : Z) : M D D :=
  if i <? 0 then undefined
  else match b !! Z.to_nat i with
       | Some v => mret v
       | None => undefined
       end.

(** [b[i] = v]. *)
Definition write (b : list D) (i : Z) (v : D) : M D (list D) :=
  if (0 <=? i) && (i <? Z.of_nat (length b)) then mret (<[Z.to_nat i := v]> b)
  else undefined.

(** [for (i = lo; i < hi; i++) body], the loop state passed along. *)
Fixpoint for_from {St} (k : nat) (i : Z) (body : Z -> St -> M D St) (s : St)
  : M D St :=
  match k with
  | O => mret s
  | S k' => s' ← body i s; for_from k' (i + 1) body s'
  end.

Definition for_range {St} (lo hi : Z) (body : Z -> St -> M D St) (s : St)
  : M D St :=
  for_from (Z.to_nat (hi - lo)) lo body s.

(** Run a process-local function at every rank, in rank order. *)
Fixpoint each_rank {A B} (f : nat -> A -> M D B) (r : nat) (xs : per_rank A)
  : M D (per_rank B) :=
  match xs with
  | [] => mret []
  | x :: xs' => y ← f r x; ys ← each_rank f (S r) xs'; mret (y :: ys)
  end.

(** Rank [r]'s copy of a variable. *)
Definition mine {A} (r : nat) (xs : per_rank A) : M D A :=
  match xs !! r with
  | Some x => mret x
  | None => undefined
  end.

(** The copy held by the root, rank 0. *)
Definition at_root {A} (xs : per_rank A) : M D A := mine 0%nat xs.
End Environment.

(** ** The MPI program, [mpi_vector_add2.c] *)

Module Mpi.
Section Program.
Context {D : Type} `{!DoubleOps D}.

(** *** Collective operations *)

(** [MPI_Bcast(buf, 1, MPI_INT, 0, comm)]: every rank's buffer ends up
    holding the root's value. *)
Definition MPI_Bcast {A} (root_val : A) (comm_sz : nat) : per_rank A :=
  replicate comm_sz root_val.

(** [MPI_Allreduce(&v, &out, 1, MPI_INT, MPI_MIN, comm)]. *)
Definition MPI_Allreduce_MIN (sendbuf : per_rank Z) : per_rank Z :=
  match sendbuf with
  | [] => []
  | v :: vs => replicate (length sendbuf) (foldl Z.min v vs)
  end.

(** [MPI_Reduce(&v, result, 1, MPI_DOUBLE, MPI_SUM, 0, comm)]: the root's
    [*result] receives the sum, taken here in rank order; on every other
    rank [*result] is left as it was, which in [main] is uninitialised
    ([None]). *)
Definition MPI_Reduce_SUM (sendbuf : per_rank D) : per_rank (option D) :=
  match sendbuf with
  | [] => []
  | v :: vs => Some (foldl dadd v vs) :: replicate (length vs) None
  end.

(** Block [r] of a buffer cut into blocks of [count] elements. *)
Definition block_of (buf : list D) (count r : nat) : list D :=
  take count (drop (r * count) buf).

(** The counts of a scatter or gather agree and fit the buffers. *)
Definition counts_fit (count : Z) (bufs : per_rank (list D)) (counts : per_rank Z)
  : bool :=
  (0 <=? count)
  && (length bufs =? length counts)%nat
  && forallb (fun c => c =? count) counts
  && forallb (fun buf => count <=? Z.of_nat (length buf)) bufs.

(** [MPI_Scatter(sendbuf, sendcount, MPI_DOUBLE, recvbuf, recvcount,
    MPI_DOUBLE, 0, comm)]: rank [r] receives elements
    [r*sendcount .. (r+1)*sendcount - 1] of the root's [sendbuf] at the
    start of its [recvbuf]. *)
Definition MPI_Scatter (sendbuf : list D) (sendcount : Z)
    (recvbuf : per_rank (list D)) (recvcount : per_rank Z)
  : M D (per_rank (list D)) :=
  if counts_fit sendcount recvbuf recvcount
     && (Z.of_nat (length recvbuf) * sendcount <=? Z.of_nat (length sendbuf))
  then mret (imap (fun r buf =>
                     block_of sendbuf (Z.to_nat sendcount) r
                       ++ drop (Z.to_nat sendcount) buf) recvbuf)
  else undefined.

(** [MPI_Gather(sendbuf, sendcount, MPI_DOUBLE, recvbuf, recvcount,
    MPI_DOUBLE, 0, comm)]: the first [sendcount] elements of rank [r]'s
    [sendbuf] are stored at positions [r*recvcount ..] of the root's
    [recvbuf]. *)
Definition MPI_Gather (sendbuf : per_rank (list D)) (sendcount : per_rank Z)
    (recvbuf : list D) (recvcount : Z) : M D (list D) :=
  if counts_fit recvcount sendbuf sendcount
     && (Z.of_nat (length sendbuf) * recvcount <=? Z.of_nat (length recvbuf))
  then mret (concat (take (Z.to_nat recvcount) <$> sendbuf)
               ++ drop (length sendbuf * Z.to_nat recvcount) recvbuf)
  else undefined.

(** *** [Check_for_error] *)

Inductive proc_status : Type :=
| Continues               (* the call returns *)
| Exits (code : Z).       (* [MPI_Finalize(); exit(code);] *)

(** Lines 126-136 on one process, [ok] being what the all-reduce gave
    it: the lines it writes to [stderr], and how it goes on. *)
Definition Check_for_error_proc (ok : Z) (my_rank : nat)
    (fname message : string) : list string * proc_status :=
  if ok =? 0 then
    ((if (my_rank =? 0)%nat
      then ["Proc " ++ fmt_rank my_rank ++ " > In " ++ fname ++ ", "
              ++ message ++ nl]%string
      else []),
     Exits (-1))
  else ([], Continues).

Definition all_continue (sts : per_rank proc_status) : bool :=
  forallb (fun st => match st with Continues => true | Exits _ => false end) sts.

Definition all_exit (code : Z) (sts : per_rank proc_status) : bool :=
  forallb (fun st => match st with Continues => false | Exits c => c =? code end) sts.

(** The whole group calling [Check_for_error], each rank with its own
    [local_ok].  Were some ranks to exit while others return, the group
    would be left in an erroneous state; the model calls it undefined. *)
Definition Check_for_error (local_ok : per_rank Z) (fname message : string)
  : M D unit :=
  let ok := MPI_Allreduce_MIN local_ok in
  let procs := imap (fun r ok_r => Check_for_error_proc ok_r r fname message) ok in
  _ ← fprintf_stderr (concat (fst <$> procs));
  if all_continue (snd <$> procs) then mret tt
  else if all_exit (-1) (snd <$> procs) then exit (-1)
  else undefined.

(** *** [Read_n] *)

(** Line 167 on one process. *)
Definition Read_n_local_ok (n : Z) (comm_sz : nat) : Z :=
  if (n <? 0) || negb (Z.rem n (Z.of_nat comm_sz) =? 0) then 0 else 1.

(** Returns every rank's [*n_p] and [*local_n_p]. *)
Definition Read_n (comm_sz : nat) : M D (per_rank Z * per_rank Z) :=
  _ ← printf [Str ("What's the order of the vectors?" ++ nl)%string];
  n0 ← scanf_d;
  let n_p := MPI_Bcast n0 comm_sz in
  let local_ok := (fun n => Read_n_local_ok n comm_sz) <$> n_p in
  _ ← Check_for_error local_ok "Read_n"
        "n should be >= 100,000 and evenly divisible by comm_sz";
  mret (n_p, (fun n => Z.quot n (Z.of_nat comm_sz)) <$> n_p).

(** *** [Read_RandMax] *)

(** Line 197 on one process. *)
Definition Read_RandMax_local_ok (randmax : Z) : Z :=
  if randmax <? 0 then 0 else 1.

Definition Read_RandMax (comm_sz : nat) : M D (per_rank Z) :=
  _ ← printf [Str ("What's the max number for random?" ++ nl)%string];
  r0 ← scanf_d;
  let randmax := MPI_Bcast r0 comm_sz in
  _ ← Check_for_error (Read_RandMax_local_ok <$> randmax) "Read_RandMax"
        "randmax should be >= 100,000";
  mret randmax.

(** *** [Allocate_vectors] *)

(** A block as [malloc] returns it.  Its cells are indeterminate in C;
    the model fills them with [dzero].  Every cell of [local_x] and
    [local_y] is overwritten by [MPI_Scatter] before it is read. *)
Definition fresh (size : Z) : list D := replicate (Z.to_nat size) dzero.

Definition Allocate_vectors (local_n : per_rank Z)
  : M D (per_rank (list D) * per_rank (list D) * per_rank (list D)) :=
  ptrs ← each_rank (fun r (_ : Z) =>
                      x ← malloc r; y ← malloc r; z ← malloc r;
                      mret (x, y, z)) 0%nat local_n;
  let local_ok :=
    (fun '(x, y, z) => if negb x || negb y || negb z then 0 else 1) <$> ptrs in
  _ ← Check_for_error local_ok "Allocate_vectors" "Can't allocate local vector(s)";
  mret (fresh <$> local_n, fresh <$> local_n, fresh <$> local_n).

(** *** [Generate_vector] *)

(** Lines 273-274, at the root. *)
Definition fill_random (a : list D) (n randmax : Z) : M D (list D) :=
  for_range 0 n (fun i a => r ← rand; v ← c_rem r randmax; write a i (of_int v)) a.

(** [local_ok] is set to 0 only at the root, when its [malloc] failed. *)
Definition root_alloc_ok (ptr_ok : bool) (r : nat) : Z :=
  if (r =? 0)%nat && negb ptr_ok then 0 else 1.

Definition Generate_vector (local_a : per_rank (list D))
    (local_n n randmax : per_rank Z) : M D (per_rank (list D)) :=
  n0 ← at_root n;
  local_n0 ← at_root local_n;
  randmax0 ← at_root randmax;
  a_ok ← malloc 0%nat;
  _ ← Check_for_error (imap (fun r _ => root_alloc_ok a_ok r) local_a)
        "Generate_vector" "Can't allocate temporary vector";
  a ← fill_random (fresh n0) n0 randmax0;
  MPI_Scatter a local_n0 local_a local_n.

(** *** [PrintTopDown_vector] *)

(** Lines 324-332, at the root. *)
Definition print_summary (b : list D) (n : Z) (title : string) : M D unit :=
  _ ← printf [Str title; Str nl];
  _ ← printf [Str "0 - 10: ["];
  _ ← for_range 0 9 (fun i _ => v ← read b i; printf [Lf v; Str ","]) tt;
  v ← read b 9;
  _ ← printf [Lf v; Str ("]" ++ nl)%string];
  _ ← printf [Int (n - 10); Str " - "; Int n; Str ": ["];
  _ ← for_range (n - 10) (n - 1) (fun i _ => v ← read b i; printf [Lf v; Str ","]) tt;
  v ← read b (n - 1);
  printf [Lf v; Str ("]" ++ nl)%string].

Definition PrintTopDown_vector (local_b : per_rank (list D))
    (local_n n : per_rank Z) (title : string) : M D unit :=
  n0 ← at_root n;
  local_n0 ← at_root local_n;
  b_ok ← malloc 0%nat;
  _ ← Check_for_error (imap (fun r _ => root_alloc_ok b_ok r) local_b)
        "PrintTopDown_vector" "Can't allocate temporary vector";
  b ← MPI_Gather local_b local_n (fresh n0) local_n0;
  print_summary b n0 title.

(** *** [Read_Scalar] *)

Definition Read_Scalar (comm_sz : nat) : M D (per_rank Z) :=
  _ ← printf [Str (nl ++ "What's the number for the scalar?" ++ nl)%string];
  s0 ← scanf_d;
  mret (MPI_Bcast s0 comm_sz).

(** *** [Parallel_vector_scalar], on one process *)

Definition Parallel_vector_scalar (scalar : Z) (local_arr : list D)
    (local_n : Z) (my_rank : nat) : M D (list D) :=
  for_range 0 local_n
    (fun local_i arr => v ← read arr local_i;
                        write arr local_i (dmul v (of_int scalar)))
    local_arr.

(** *** [Parallel_vector_dot] *)

(** Lines 406-410, on one process. *)
Definition local_dot (local_x local_y : list D) (local_n : Z) : M D D :=
  for_range 0 local_n
    (fun i acc => x ← read local_x i; y ← read local_y i;
                  mret (dadd acc (dmul x y)))
    dzero.

(** Returns every rank's [*result]. *)
Definition Parallel_vector_dot (local_x local_y : per_rank (list D))
    (local_n : per_rank Z) : M D (per_rank (option D)) :=
  dots ← each_rank (fun r x => y ← mine r local_y; ln ← mine r local_n;
                               local_dot x y ln) 0%nat local_x;
  mret (MPI_Reduce_SUM dots).

(** *** [Display_dot_result], on one process *)

Definition Display_dot_result (my_rank : nat) (result : option D) : M D unit :=
  if (my_rank =? 0)%nat then
    match result with
    | Some v => printf [Str (nl ++ "Result of dot product: ")%string; Lf v; Str nl]
    | None => undefined
    end
  else mret tt.

(** *** [main] *)

(** Both scaling calls of [main], at every rank. *)
Definition scale_all (scalar : per_rank Z) (local_arr : per_rank (list D))
    (local_n : per_rank Z) : M D (per_rank (list D)) :=
  each_rank (fun r arr => s ← mine r scalar; ln ← mine r local_n;
                          Parallel_vector_scalar s arr ln r) 0%nat local_arr.

(** Lines 69-87, the part of [main] between the two readings of the
    clock: it returns what [Display_dot_result] returned at every rank. *)
Definition timed_part (comm_sz : nat) (n local_n randmax : per_rank Z)
  : M D (per_rank unit) :=
  '(local_x, local_y, local_z) ← Allocate_vectors local_n;
  local_x ← Generate_vector local_x local_n n randmax;
  _ ← PrintTopDown_vector local_x local_n n "Vector x";
  local_y ← Generate_vector local_y local_n n randmax;
  _ ← PrintTopDown_vector local_y local_n n "Vector y";
  scalar ← Read_Scalar comm_sz;
  local_x ← scale_all scalar local_x local_n;
  _ ← PrintTopDown_vector local_x local_n n "Vector x by scalar";
  local_y ← scale_all scalar local_y local_n;
  _ ← PrintTopDown_vector local_y local_n n "Vector y by scalar";
  result ← Parallel_vector_dot local_x local_y local_n;
  each_rank Display_dot_result 0%nat result.

Definition main (comm_sz : nat) : M D Z :=
  '(n, local_n) ← Read_n comm_sz;
  randmax ← Read_RandMax comm_sz;
  _ ← timed_part comm_sz n local_n randmax;
  _ ← printf [Str (nl ++ "Took ")%string; Clock "%.3lf"; Str (" s to run" ++ nl)%string];
  mret 0.
End Program.
End Mpi.

(** ** The serial program, [vector_add2.c] *)

Module Serial.
Section Program.
Context {D : Type} `{!DoubleOps D}.

Definition Read_n : M D Z :=
  _ ← printf [Str ("What's the order of the vectors?" ++ nl)%string];
  n ← scanf_d;
  if n <=? 0 then
    _ ← fprintf_stderr [("Order should be positive" ++ nl)%string];
    exit (-1)
  else mret n.

(** Line 86 tests [randmax <= 0] on the parameter itself, the address of
    [main]'s variable, and not on the integer it points to.  The address
    of a live object is not null, so the branch is never taken. *)
Definition address_le_null : bool := false.

Definition Read_RandMax : M D Z :=
  _ ← printf [Str ("What's the max number for random?" ++ nl)%string];
  randmax ← scanf_d;
  if address_le_null then
    _ ← fprintf_stderr [("Max number should be positive" ++ nl)%string];
    exit (-1)
  else mret randmax.

Definition Allocate_vectors (n : Z) : M D (list D * list D * list D) :=
  x ← malloc 0%nat; y ← malloc 0%nat; z ← malloc 0%nat;
  if negb x || negb y || negb z then
    _ ← fprintf_stderr [("Can't allocate vectors" ++ nl)%string];
    exit (-1)
  else mret (Mpi.fresh n, Mpi.fresh n, Mpi.fresh n).

Definition Generate_vector (a : list D) (n : Z) (vec_name : string) (randmax : Z)
  : M D (list D) :=
  a ← for_range 0 n
        (fun i a => r ← rand; v ← c_rem r randmax; write a i (of_int v)) a;
  _ ← printf [Str "Vector "; Str vec_name; Str (" generated ..." ++ nl)%string];
  mret a.

(** Defined in the source, called nowhere. *)
Definition Print_vector (b : list D) (n : Z) (title : string) : M D unit :=
  _ ← printf [Str title; Str nl];
  _ ← for_range 0 n (fun i _ => v ← read b i; printf [Lf v; Str " "]) tt;
  printf [Str nl].

Definition PrintTopDown_vector (b : list D) (n : Z) (title : string) : M D unit :=
  _ ← printf [Str title; Str nl];
  _ ← printf [Str "0 - 10: ["];
  _ ← for_range 0 9 (fun i _ => v ← read b i; printf [Lf v; Str ","]) tt;
  v ← read b 9;
  _ ← printf [Lf v; Str ("]" ++ nl)%string];
  _ ← printf [Int (n - 10); Str " - "; Int n; Str ": ["];
  _ ← for_range (n - 10) (n - 1) (fun i _ => v ← read b i; printf [Lf v; Str ","]) tt;
  v ← read b (n - 1);
  printf [Lf v; Str ("]" ++ nl)%string].

Definition Vector_sum (x y z : list D) (n : Z) : M D (list D) :=
  for_range 0 n
    (fun i z => a ← read x i; b ← read y i; write z i (dadd a b)) z.

Definition main : M D Z :=
  n ← Read_n;
  randmax ← Read_RandMax;
  '(x, y, z) ← Allocate_vectors n;
  x ← Generate_vector x n "x" randmax;
  y ← Generate_vector y n "y" randmax;
  _ ← PrintTopDown_vector x n "Vector x";
  _ ← PrintTopDown_vector y n "Vector y";
  z ← Vector_sum x y z n;
  _ ← printf [Str (nl ++ "Took ")%string; Clock "%d"; Str "."; Clock "%d";
              Str (" s to run" ++ nl)%string];
  mret 0.
End Program.
End Serial.


(** ** Specification-side definitions *)

Section Specification.
Context {D : Type} `{!DoubleOps D}.

(** [scale(block, factor)]: every element multiplied by [factor]. *)
Definition scale (block : list D) (factor : Z) : list D :=
  (fun v => dmul v (of_int factor)) <$> block.

(** [localDotPartial(a, b)]: the elementwise products [a[i]*b[i]], summed
    in index order into an accumulator that starts at 0.0. *)
Definition localDotPartial (a b : list D) : D :=
  foldl dadd dzero (zip_with dmul a b).

(** The sum of the workers' partials, in rank order. *)
Definition sum_partials (partials : per_rank D) : option D :=
  match partials with
  | [] => None
  | p :: ps => Some (foldl dadd p ps)
  end.

(** The logical AND of the health flags of a group. *)
Definition all_healthy (healthy : per_rank bool) : bool :=
  forallb (fun h => h) healthy.

(** A buffer cut into [P] blocks of [count] elements, in rank order. *)
Definition blocks (a : list D) (count P : nat) : per_rank (list D) :=
  Mpi.block_of a count <$> seq 0 P.

(** The distributed dot product of two global vectors on [P] workers:
    both vectors are scattered in blocks of [n / P] elements into blocks
    allocated as [Mpi.Allocate_vectors] does, [Mpi.Parallel_vector_dot]
    runs on the blocks, and the root's result is returned. *)
Definition distributed_dot (P : nat) (x y : list D) : M D (option D) :=
  let local_n := Z.quot (Z.of_nat (length x)) (Z.of_nat P) in
  let local_ns := Mpi.MPI_Bcast local_n P in
  local_x ← Mpi.MPI_Scatter x local_n (Mpi.fresh <$> local_ns) local_ns;
  local_y ← Mpi.MPI_Scatter y local_n (Mpi.fresh <$> local_ns) local_ns;
  result ← Mpi.Parallel_vector_dot local_x local_y local_ns;
  at_root result.

(** The vector [Generate_vector] builds at the root from the [n] values
    [rand()] returns from position [pos] on. *)
Definition generated (rs : nat -> Z) (pos n : nat) (randmax : Z) : list D :=
  (fun i => of_int (Z.rem (rs (pos + i)%nat) randmax)) <$> seq 0 n.

(** The elements of a window, each followed by a comma. *)
Definition comma_separated (vs : list D) : list (token D) :=
  vs ≫= (fun v => [Lf v; Str ","]).

(** A window of ten elements as it is printed: nine elements followed by
    a comma each, the tenth followed by the closing bracket. *)
Definition window (vs : list D) : list (token D) :=
  comma_separated (take 9 vs)
    ++ (take 1 (drop 9 vs) ≫= (fun v => [Lf v; Str ("]" ++ nl)%string])).

(** The summary of a vector [b] of [n >= 10] elements: the title, the
    window of positions 0 to 9 and the window of positions [n-10] to
    [n-1]. *)
Definition summary (b : list D) (n : Z) (title : string) : list (token D) :=
  [Str title; Str nl; Str "0 - 10: ["]
    ++ window (take 10 b)
    ++ [Int (n - 10); Str " - "; Int n; Str ": ["]
    ++ window (drop (Z.to_nat (n - 10)) b).

(** What the MPI program writes to [stdout] in a run that reaches its
    end: [x] and [y] are the generated vectors, [dot] the reduced dot
    product of the scaled vectors. *)
Definition mpi_transcript (n scalar : Z) (x y : list D) (dot : D)
  : list (token D) :=
  [Str ("What's the order of the vectors?" ++ nl)%string;
   Str ("What's the max number for random?" ++ nl)%string]
    ++ summary x n "Vector x"
    ++ summary y n "Vector y"
    ++ [Str (nl ++ "What's the number for the scalar?" ++ nl)%string]
    ++ summary (scale x scalar) n "Vector x by scalar"
    ++ summary (scale y scalar) n "Vector y by scalar"
    ++ [Str (nl ++ "Result of dot product: ")%string; Lf dot; Str nl]
    ++ [Str (nl ++ "Took ")%string; Clock "%.3lf"; Str (" s to run" ++ nl)%string].

(** What the serial program writes to [stdout] in a run that reaches its
    end. *)
Definition serial_transcript (n : Z) (x y : list D) : list (token D) :=
  [Str ("What's the order of the vectors?" ++ nl)%string;
   Str ("What's the max number for random?" ++ nl)%string]
    ++ [Str "Vector "; Str "x"; Str (" generated ..." ++ nl)%string]
    ++ [Str "Vector "; Str "y"; Str (" generated ..." ++ nl)%string]
    ++ summary x n "Vector x"
    ++ summary y n "Vector y"
    ++ [Str (nl ++ "Took ")%string; Clock "%d"; Str "."; Clock "%d";
        Str (" s to run" ++ nl)%string].

(** How a run ends, and what it wrote to [stderr]. *)
Inductive verdict : Type :=
| Returned
| Exited (code : Z)
| Undefined.

Definition verdict_of {A} (o : outcome D A) : verdict * list string :=
  match o with
  | Ret _ w => (Returned, stderr w)
  | Exit code w => (Exited code, stderr w)
  | Undef => (Undefined, [])
  end.

(** The standard output of a run. *)
Definition stdout_of {A} (o : outcome D A) : list (token D) :=
  match o with
  | Ret _ w => stdout w
  | Exit _ w => stdout w
  | Undef => []
  end.

(** The input a run left unread. *)
Definition stdin_of {A} (o : outcome D A) : list Z :=
  match o with
  | Ret _ w => stdin w
  | Exit _ w => stdin w
  | Undef => []
  end.

(** Whether the line of the dot product is in an output. *)
Definition reports_dot (ts : list (token D)) : bool :=
  existsb (fun t => match t with
                    | Str s => String.eqb s (nl ++ "Result of dot product: ")
                    | _ => false
                    end) ts.

(** The format of an output: the tokens with their numbers erased. *)
Definition format_of (ts : list (token D)) : list (token unit) :=
  (fun t => match t with
            | Str s => Str s
            | Int _ => Int 0
            | Lf _ => Lf tt
            | Clock _ => Clock ""
            end) <$> ts.

(** Two worlds that differ at most in what was written to [stdout] and
    in the integer that is next on the input. *)
Definition sim (w1 w2 : World D) : Prop :=
  rand_seq w1 = rand_seq w2
  /\ rand_pos w1 = rand_pos w2
  /\ mallocs w1 = mallocs w2
  /\ stderr w1 = stderr w2
  /\ length (stdin w1) = length (stdin w2)
  /\ tail (stdin w1) = tail (stdin w2).

(** Two outcomes that end the same way, in such worlds, with related
    results. *)
Definition osim {A B} (R : A -> B -> Prop) (o1 : outcome D A) (o2 : outcome D B)
  : Prop :=
  match o1, o2 with
  | Ret a w1, Ret b w2 => R a b /\ sim w1 w2
  | Exit c1 w1, Exit c2 w2 => c1 = c2 /\ sim w1 w2
  | Undef, Undef => True
  | _, _ => False
  end.

Definition msim {A B} (R : A -> B -> Prop) (m1 : M D A) (m2 : M D B) : Prop :=
  forall w1 w2, sim w1 w2 -> osim R (m1 w1) (m2 w2).

(** The relation that holds of any two results. *)
Definition any {A B} : A -> B -> Prop := fun _ _ => True.

(** Results that are both present or both absent, rank by rank. *)
Definition same_presence (xs ys : per_rank (option D)) : Prop :=
  Forall2 (fun a b : option D => is_Some a <-> is_Some b) xs ys.

(** Blocks of the same sizes, rank by rank. *)
Definition same_shape (xs ys : per_rank (list D)) : Prop :=
  Forall2 (fun a b : list D => length a = length b) xs ys.

(** The results still scheduled for the [malloc] calls of rank [r]. *)
Definition pending (r : nat) (w : World D) : list bool :=
  default [] (mallocs w !! r).

(** The result of the call number [k] (from 0) among those scheduled. *)
Definition malloc_result (row : list bool) (k : nat) : bool :=
  default true (row !! k).

(** The world after rank [r] made [k] calls of [malloc]. *)
Definition after_mallocs (r k : nat) (w : World D) : World D :=
  set_mallocs (alter (drop k) r (mallocs w)) w.

(** Whether the three allocations of [Allocate_vectors] succeed at rank
    [r]. *)
Definition three_ok (r : nat) (w : World D) : bool :=
  malloc_result (pending r w) 0 && malloc_result (pending r w) 1
  && malloc_result (pending r w) 2.

(** The world after each of the ranks [0 .. P-1] made three calls of
    [malloc]. *)
Definition after_allocation (P : nat) (w : World D) : World D :=
  set_mallocs (foldl (fun ms r => alter (drop 3) r ms) (mallocs w) (seq 0 P)) w.

(** What [Print_vector] writes for a vector: the title, every element
    followed by a space, and a newline. *)
Definition listing (b : list D) (title : string) : list (token D) :=
  [Str title; Str nl] ++ (b ≫= (fun v => [Lf v; Str " "])) ++ [Str nl].

(** A world in which nothing was read or written yet, no allocation
    fails, and [rand()] returns 3, 10, 17, ... *)
Definition sample_world (input : list Z) : World D :=
  mkWorld input (fun i => Z.of_nat (7 * i + 3)) 0 [] [] [].

(** The same world with a schedule of [malloc] results, per rank. *)
Definition scheduled_world (input : list Z) (schedule : list (list bool))
  : World D :=
  mkWorld input (fun i => Z.of_nat (7 * i + 3)) 0 schedule [] [].
End Specification.

(** * Properties *)

(** ** The monad and the loops *)

Section Basics.
Context {D : Type} `{!DoubleOps D}.

Lemma bind_Ret {A B} (m : M D A) (f : A -> M D B) w a w' :
  m w = Ret a w' -> (m ≫= f) w = f a w'.
Proof. intros E. unfold mbind, M_bind. now rewrite E. Qed.

Lemma bind_Exit {A B} (m : M D A) (f : A -> M D B) w c w' :
  m w = Exit c w' -> (m ≫= f) w = Exit c w'.
Proof. intros E. unfold mbind, M_bind. now rewrite E. Qed.

Lemma bind_Undef {A B} (m : M D A) (f : A -> M D B) w :
  m w = Undef -> (m ≫= f) w = Undef.
Proof. intros E. unfold mbind, M_bind. now rewrite E. Qed.

Lemma read_Ret (b : list D) (i : nat) v w :
  b !! i = Some v -> read b (Z.of_nat i) w = Ret v w.
Proof.
  intros E. unfold read.
  destruct (Z.ltb_spec (Z.of_nat i) 0) as [Hneg|_]; [lia|].
  now rewrite Nat2Z.id, E.
Qed.

Lemma read_Undef (b : list D) (i : Z) w :
  i < 0 \/ Z.of_nat (length b) <= i -> read b i w = Undef.
Proof.
  intros Hi. unfold read.
  destruct (Z.ltb_spec i 0) as [|Hpos]; [reflexivity|].
  destruct (b !! Z.to_nat i) eqn:E; [|reflexivity].
  apply lookup_lt_Some in E. lia.
Qed.

Lemma write_Ret (b : list D) (i : nat) v w :
  (i < length b)%nat -> write b (Z.of_nat i) v w = Ret (<[i := v]> b) w.
Proof.
  intros Hi. unfold write.
  destruct (Z.leb_spec 0 (Z.of_nat i)); [|lia].
  destruct (Z.ltb_spec (Z.of_nat i) (Z.of_nat (length b))); [|lia].
  simpl. now rewrite Nat2Z.id.
Qed.

Lemma mine_Ret {A} (xs : per_rank A) r x (w : World D) :
  xs !! r = Some x -> mine r xs w = Ret x w.
Proof. intros E. unfold mine. now rewrite E. Qed.

Lemma for_range_length {St} (body : Z -> St -> M D St) (n : nat) s :
  for_range 0 (Z.of_nat n) body s = for_from n 0 body s.
Proof. unfold for_range. now rewrite Z.sub_0_r, Nat2Z.id. Qed.

(** The scaling loop, from any point on: the cells behind the index are
    done, those ahead are still to do. *)
Lemma scalar_loop scalar (todo done : list D) w :
  for_from (length todo) (Z.of_nat (length done))
    (fun local_i arr => v ← read arr local_i;
                        write arr local_i (dmul v (of_int scalar)))
    (done ++ todo) w
  = Ret (done ++ scale todo scalar) w.
Proof.
  revert done. induction todo as [|v todo IH]; intros done; [reflexivity|].
  cbn [length for_from].
  erewrite bind_Ret; cycle 1.
  { erewrite bind_Ret by (apply read_Ret, list_lookup_middle; reflexivity).
    apply write_Ret. rewrite length_app. simpl. lia. }
  rewrite insert_app_r_alt, Nat.sub_diag by lia. cbn [list_insert].
  replace (Z.of_nat (length done) + 1) with (Z.of_nat (length (done ++ [dmul v (of_int scalar)])))
    by (rewrite length_app; simpl; lia).
  change (<[0%nat:=dmul v (of_int scalar)]> (v :: todo))
    with ([dmul v (of_int scalar)] ++ todo).
  rewrite app_assoc, IH, <- app_assoc. reflexivity.
Qed.

(** The dot loop, from any point on. *)
Lemma dot_loop (x y : list D) :
  length x = length y ->
  forall (px py : list D) acc w,
    length px = length py ->
    for_from (length x) (Z.of_nat (length px))
      (fun i acc => a ← read (px ++ x) i; b ← read (py ++ y) i;
                    mret (dadd acc (dmul a b)))
      acc w
    = Ret (foldl dadd acc (zip_with dmul x y)) w.
Proof.
  revert y. induction x as [|a x IH]; intros [|b y] Hlen px py acc w Hp;
    try discriminate; [reflexivity|].
  cbn [length for_from zip_with foldl].
  erewrite bind_Ret; cycle 1.
  { erewrite bind_Ret by (apply read_Ret, list_lookup_middle; reflexivity).
    rewrite Hp.
    erewrite bind_Ret by (apply read_Ret, list_lookup_middle; reflexivity).
    reflexivity. }
  replace (Z.of_nat (length px) + 1) with (Z.of_nat (length (px ++ [a])))
    by (rewrite length_app; simpl; lia).
  rewrite (cons_middle a px x), (cons_middle b py y), !app_assoc.
  apply IH.
  - simpl in Hlen. lia.
  - rewrite !length_app. simpl. lia.
Qed.

Lemma local_dot_Ret (x y : list D) w :
  length x = length y ->
  Mpi.local_dot x y (Z.of_nat (length x)) w = Ret (localDotPartial x y) w.
Proof.
  intros Hlen. unfold Mpi.local_dot. rewrite for_range_length.
  exact (dot_loop x y Hlen [] [] dzero w eq_refl).
Qed.

Lemma Parallel_vector_scalar_Ret scalar (arr : list D) r w :
  Mpi.Parallel_vector_scalar scalar arr (Z.of_nat (length arr)) r w
  = Ret (scale arr scalar) w.
Proof.
  unfold Mpi.Parallel_vector_scalar. rewrite for_range_length.
  exact (scalar_loop scalar arr [] w).
Qed.
End Basics.

(** ** Blocks, scatter and gather *)

Section Distribution.
Context {D : Type} `{!DoubleOps D}.

Lemma blocks_S (a : list D) c P :
  blocks a c (S P) = take c a :: blocks (drop c a) c P.
Proof.
  unfold blocks. cbn [seq fmap list_fmap]. rewrite <- fmap_S_seq, <- list_fmap_compose.
  f_equal. apply list_fmap_ext. intros i r Hr. unfold Mpi.block_of. simpl.
  now rewrite drop_drop.
Qed.

Lemma length_blocks (a : list D) c P : length (blocks a c P) = P.
Proof. unfold blocks. now rewrite length_fmap, length_seq. Qed.

Lemma concat_blocks (a : list D) c P :
  length a = (P * c)%nat -> concat (blocks a c P) = a.
Proof.
  revert a. induction P as [|P IH]; intros a Hlen.
  - destruct a; [reflexivity|discriminate].
  - rewrite blocks_S. cbn [concat]. rewrite IH.
    + apply take_drop.
    + rewrite length_drop. lia.
Qed.

Lemma blocks_lookup (a : list D) c P r blk :
  (P * c <= length a)%nat ->
  blocks a c P !! r = Some blk ->
  length blk = c /\ forall j, (j < c)%nat -> blk !! j = a !! (r * c + j)%nat.
Proof.
  intros Hlen Hr. unfold blocks in Hr. rewrite list_lookup_fmap in Hr.
  destruct (seq 0 P !! r) as [r'|] eqn:Hs; [|discriminate].
  apply lookup_seq in Hs as [-> HrP]. simpl in Hr. injection Hr as <-.
  unfold Mpi.block_of. split.
  - rewrite length_take, length_drop. nia.
  - intros j Hj. now rewrite lookup_take_lt, lookup_drop by lia.
Qed.

Lemma blocks_Forall_length (a : list D) c P :
  (P * c <= length a)%nat -> Forall (fun blk => length blk = c) (blocks a c P).
Proof.
  intros Hlen. apply Forall_lookup. intros r blk Hr.
  now apply (blocks_lookup a c P r blk Hlen).
Qed.

Lemma forallb_replicate {A} (f : A -> bool) n x :
  f x = true -> forallb f (replicate n x) = true.
Proof. intros Hx. induction n; simpl; [reflexivity|]. now rewrite Hx. Qed.

Lemma forallb_Forall {A} (f : A -> bool) (P : A -> Prop) l :
  (forall x, P x -> f x = true) -> Forall P l -> forallb f l = true.
Proof.
  intros Hf Hl. induction Hl as [|x l Hx _ IH]; simpl; [reflexivity|].
  now rewrite (Hf x Hx).
Qed.

Lemma length_fresh (c : nat) : length (Mpi.fresh (D:=D) (Z.of_nat c)) = c.
Proof. unfold Mpi.fresh. now rewrite length_replicate, Nat2Z.id. Qed.

(** A scatter into freshly allocated blocks of exactly [c] cells. *)
Lemma MPI_Scatter_fresh (a : list D) (c P : nat) w :
  (P * c <= length a)%nat ->
  Mpi.MPI_Scatter a (Z.of_nat c) (Mpi.fresh <$> replicate P (Z.of_nat c))
    (replicate P (Z.of_nat c)) w
  = Ret (blocks a c P) w.
Proof.
  intros Hlen. unfold Mpi.MPI_Scatter, Mpi.counts_fit.
  rewrite fmap_replicate, !length_replicate, Nat.eqb_refl.
  rewrite !forallb_replicate by (rewrite ?length_fresh; lia).
  destruct (Z.leb_spec 0 (Z.of_nat c)); [|lia].
  destruct (Z.leb_spec (Z.of_nat P * Z.of_nat c) (Z.of_nat (length a))); [|nia].
  simpl. unfold mret, M_ret. f_equal.
  rewrite Nat2Z.id. unfold blocks.
  rewrite <- (length_replicate P (Mpi.fresh (D:=D) (Z.of_nat c))) at 2.
  rewrite <- imap_seq_0. apply imap_ext. intros r buf Hbuf.
  apply lookup_replicate in Hbuf as [-> _].
  rewrite drop_ge by (rewrite length_fresh; lia). apply app_nil_r.
Qed.

(** A gather of blocks of exactly [c] cells into a buffer allocated for
    all of them. *)
Lemma MPI_Gather_fresh (bs : per_rank (list D)) (c : nat) w :
  Forall (fun blk => length blk = c) bs ->
  Mpi.MPI_Gather bs (replicate (length bs) (Z.of_nat c))
    (Mpi.fresh (Z.of_nat (length bs * c))) (Z.of_nat c) w
  = Ret (concat bs) w.
Proof.
  intros Hbs. unfold Mpi.MPI_Gather, Mpi.counts_fit.
  rewrite !length_replicate, Nat.eqb_refl, length_fresh.
  rewrite forallb_replicate by lia.
  rewrite (forallb_Forall _ (fun blk => length blk = c) bs)
    by (try exact Hbs; intros blk E; apply Z.leb_le; lia).
  destruct (Z.leb_spec 0 (Z.of_nat c)); [|lia].
  destruct (Z.leb_spec (Z.of_nat (length bs) * Z.of_nat c) (Z.of_nat (length bs * c))); [|lia].
  simpl. unfold mret, M_ret. f_equal.
  rewrite Nat2Z.id, drop_ge, app_nil_r by (rewrite length_fresh; lia).
  f_equal. clear -Hbs. induction Hbs as [|blk bs Hblk _ IH]; [reflexivity|].
  cbn [fmap list_fmap]. f_equal; [|exact IH]. apply take_ge. lia.
Qed.

Lemma quot_exact (n P : nat) :
  (0 < P)%nat -> (n `mod` P = 0)%nat ->
  Z.quot (Z.of_nat n) (Z.of_nat P) = Z.of_nat (n / P) /\ n = (P * (n / P))%nat.
Proof.
  intros HP Hmod. split.
  - rewrite Z.quot_div_nonneg by lia. symmetry. apply Nat2Z.inj_div.
  - apply Nat.Div0.div_exact. exact Hmod.
Qed.
End Distribution.

(** ** The dot product on the group *)

Section Dot.
Context {D : Type} `{!DoubleOps D}.

(** The local loops of all ranks, from rank [length py] on. *)
Lemma local_dots (c : nat) (local_n : per_rank Z) (xs : per_rank (list D)) :
  forall (ys py : per_rank (list D)) w,
    length xs = length ys ->
    Forall (fun blk => length blk = c) xs ->
    Forall (fun blk => length blk = c) ys ->
    (forall i, (i < length py + length xs)%nat -> local_n !! i = Some (Z.of_nat c)) ->
    each_rank (fun r x => y ← mine r (py ++ ys); ln ← mine r local_n;
                          Mpi.local_dot x y ln) (length py) xs w
    = Ret (zip_with localDotPartial xs ys) w.
Proof.
  induction xs as [|x xs IH]; intros [|y ys] py w Hlen Hxs Hys Hn;
    try discriminate; [reflexivity|].
  apply Forall_cons in Hxs as [Hx Hxs]. apply Forall_cons in Hys as [Hy Hys].
  cbn [each_rank zip_with].
  erewrite bind_Ret; cycle 1.
  { erewrite bind_Ret by (apply mine_Ret, list_lookup_middle; reflexivity).
    erewrite bind_Ret by (apply mine_Ret, Hn; simpl; lia).
    rewrite <- Hx. apply local_dot_Ret. congruence. }
  erewrite bind_Ret; [reflexivity|].
  replace (S (length py)) with (length (py ++ [y])) by (rewrite length_app; simpl; lia).
  rewrite (cons_middle y py ys), app_assoc. apply IH; auto.
  intros i Hi. apply Hn. rewrite length_app in Hi. simpl in *. lia.
Qed.

Lemma Parallel_vector_dot_Ret (c : nat) (xs ys : per_rank (list D)) w :
  length xs = length ys ->
  Forall (fun blk => length blk = c) xs ->
  Forall (fun blk => length blk = c) ys ->
  Mpi.Parallel_vector_dot xs ys (replicate (length xs) (Z.of_nat c)) w
  = Ret (Mpi.MPI_Reduce_SUM (zip_with localDotPartial xs ys)) w.
Proof.
  intros Hlen Hxs Hys. unfold Mpi.Parallel_vector_dot.
  erewrite bind_Ret; [reflexivity|].
  apply (local_dots c _ xs ys [] w Hlen Hxs Hys).
  intros i Hi. apply lookup_replicate_2. simpl in Hi. exact Hi.
Qed.

Lemma MPI_Reduce_SUM_root (partials : per_rank D) :
  partials <> [] ->
  Mpi.MPI_Reduce_SUM partials !! 0%nat = Some (sum_partials partials)
  /\ forall r, (0 < r < length partials)%nat ->
               Mpi.MPI_Reduce_SUM partials !! r = Some None.
Proof.
  destruct partials as [|p ps]; [congruence|]. intros _. simpl.
  split; [reflexivity|]. intros [|r] Hr; [lia|]. simpl.
  apply lookup_replicate_2. lia.
Qed.

Lemma length_zip_with_same {A B C} (f : A -> B -> C) (l : list A) (k : list B) :
  length l = length k -> length (zip_with f l k) = length l.
Proof. intros E. rewrite length_zip_with. lia. Qed.
End Dot.

(** ** Exact arithmetic *)

Section Exact.

Lemma foldl_Rplus_acc (l : list R) (a : R) :
  foldl Rplus a l = (a + foldl Rplus 0%R l)%R.
Proof.
  revert a. induction l as [|v l IH]; intros a; simpl; [lra|].
  rewrite (IH (a + v)%R), (IH (0 + v)%R). lra.
Qed.

Lemma localDotPartial_app (x1 x2 y1 y2 : list R) :
  length x1 = length y1 ->
  localDotPartial (x1 ++ x2) (y1 ++ y2)
  = (localDotPartial x1 y1 + localDotPartial x2 y2)%R.
Proof.
  intros Hlen. unfold localDotPartial.
  rewrite zip_with_app by exact Hlen.
  rewrite foldl_app. apply foldl_Rplus_acc.
Qed.

(** The partials of the blocks add up to the dot product of the whole. *)
Lemma partials_total (c P : nat) :
  forall x y : list R,
    length x = (P * c)%nat -> length y = (P * c)%nat ->
    foldl Rplus 0%R (zip_with localDotPartial (blocks x c P) (blocks y c P))
    = localDotPartial x y.
Proof.
  induction P as [|P IH]; intros x y Hx Hy.
  - destruct x, y; try discriminate. reflexivity.
  - rewrite !blocks_S. cbn [zip_with foldl].
    rewrite foldl_Rplus_acc, IH by (rewrite length_drop; lia).
    rewrite <- (take_drop c x) at 3. rewrite <- (take_drop c y) at 3.
    rewrite localDotPartial_app by (rewrite !length_take; lia).
    simpl. lra.
Qed.

Lemma distributed_dot_exact (P : nat) (x y : list R) (w : World R) :
  (0 < P)%nat -> length x = length y -> (length x `mod` P = 0)%nat ->
  distributed_dot P x y w = Ret (Some (localDotPartial x y)) w.
Proof.
  intros HP Hlen Hmod. unfold distributed_dot, Mpi.MPI_Bcast.
  destruct (quot_exact (length x) P HP Hmod) as [-> Hn].
  set (c := (length x / P)%nat) in *.
  erewrite bind_Ret by (apply MPI_Scatter_fresh; lia).
  erewrite bind_Ret by (apply MPI_Scatter_fresh; lia).
  erewrite bind_Ret; cycle 1.
  { rewrite <- (length_blocks x c P) at 3.
    apply Parallel_vector_dot_Ret.
    - now rewrite !length_blocks.
    - apply blocks_Forall_length. lia.
    - apply blocks_Forall_length. lia. }
  destruct P as [|P]; [lia|].
  rewrite !blocks_S. cbn [zip_with Mpi.MPI_Reduce_SUM].
  unfold at_root. erewrite mine_Ret by reflexivity. do 2 f_equal.
  simpl. rewrite foldl_Rplus_acc.
  rewrite partials_total by (rewrite length_drop; lia).
  rewrite <- (take_drop c x) at 3. rewrite <- (take_drop c y) at 3.
  rewrite localDotPartial_app by (rewrite !length_take; lia).
  reflexivity.
Qed.
End Exact.

(** ** Machine arithmetic *)

(** In binary64 the partition matters: the same vectors give 1 on one
    worker and 0 on two, which is why the equality above is stated for
    exact arithmetic. *)
Example binary64_partition_matters :
  distributed_dot 1 [1e16; 1; -1e16; 1]%float [1; 1; 1; 1]%float (sample_world [])
  = Ret (Some 1%float) (sample_world [])
  /\ distributed_dot 2 [1e16; 1; -1e16; 1]%float [1; 1; 1; 1]%float (sample_world [])
     = Ret (Some 0%float) (sample_world []).
Proof. split; vm_compute; reflexivity. Qed.

(** ** The group-wide error check *)

Section ErrorCheck.
Context {D : Type} `{!DoubleOps D}.

Lemma put_stderr_nil (w : World D) : put_stderr [] w = w.
Proof. destruct w. unfold put_stderr. simpl. now rewrite app_nil_r. Qed.

Lemma put_stdout_nil (w : World D) : put_stdout [] w = w.
Proof. destruct w. unfold put_stdout. simpl. now rewrite app_nil_r. Qed.

(** The line the root writes when the check fails. *)
Lemma check_line (fname message : string) :
  ("Proc " ++ fmt_rank 0 ++ " > In " ++ fname ++ ", " ++ message ++ nl)%string
  = ("Proc 0 > In " ++ fname ++ ", " ++ message ++ nl)%string.
Proof. reflexivity. Qed.

Lemma concat_replicate_nil {A} (n : nat) : concat (replicate n (@nil A)) = [].
Proof. induction n; simpl; auto. Qed.

(** What the processes of ranks 1, 2, ... do with a common [ok]. *)
Lemma check_other_ranks (ok : Z) (k : nat) (fname message : string) :
  imap (fun r ok_r => Mpi.Check_for_error_proc ok_r (S r) fname message)
    (replicate k ok)
  = replicate k ([], if ok =? 0 then Mpi.Exits (-1) else Mpi.Continues).
Proof.
  rewrite (imap_ext _ (const (fun _ => ([], if ok =? 0 then Mpi.Exits (-1)
                                          else Mpi.Continues)))).
  - now rewrite imap_const, fmap_replicate.
  - intros r v Hv. apply lookup_replicate in Hv as [-> _].
    unfold Mpi.Check_for_error_proc, const. simpl. now destruct (ok =? 0).
Qed.

(** The check on a non-empty group: it fails exactly when the minimum of
    the flags is 0. *)
Lemma Check_for_error_min (v : Z) (vs : per_rank Z) (fname message : string)
    (w : World D) :
  Mpi.Check_for_error (v :: vs) fname message w
  = if foldl Z.min v vs =? 0
    then Exit (-1) (put_stderr [("Proc 0 > In " ++ fname ++ ", " ++ message ++ nl)%string] w)
    else Ret tt w.
Proof.
  unfold Mpi.Check_for_error, Mpi.MPI_Allreduce_MIN.
  cbn [length replicate]. rewrite imap_cons.
  change (imap _ (replicate (length vs) ?ok))
    with (imap (fun r ok_r => Mpi.Check_for_error_proc ok_r (S r) fname message)
            (replicate (length vs) ok)).
  rewrite check_other_ranks.
  unfold Mpi.Check_for_error_proc.
  destruct (foldl Z.min v vs =? 0) eqn:E.
  - cbn [fmap list_fmap fst snd concat Nat.eqb]. rewrite !fmap_replicate.
    cbn [fst snd]. rewrite concat_replicate_nil, app_nil_r.
    unfold Mpi.all_continue, Mpi.all_exit. cbn [forallb andb Z.eqb Pos.eqb].
    rewrite forallb_replicate by reflexivity. reflexivity.
  - cbn [fmap list_fmap fst snd concat]. rewrite !fmap_replicate.
    cbn [fst snd]. rewrite concat_replicate_nil.
    unfold Mpi.all_continue. cbn [forallb app].
    rewrite forallb_replicate by reflexivity.
    unfold mbind, M_bind, fprintf_stderr. now rewrite put_stderr_nil.
Qed.

Lemma foldl_min_replicate (v : Z) (k : nat) : foldl Z.min v (replicate k v) = v.
Proof. induction k; simpl; [reflexivity|]. now rewrite Z.min_id. Qed.

(** The check when every rank votes the same. *)
Lemma Check_for_error_uniform (P : nat) (v : Z) (fname message : string)
    (w : World D) :
  (0 < P)%nat ->
  Mpi.Check_for_error (replicate P v) fname message w
  = if v =? 0
    then Exit (-1) (put_stderr [("Proc 0 > In " ++ fname ++ ", " ++ message ++ nl)%string] w)
    else Ret tt w.
Proof.
  intros HP. destruct P as [|P]; [lia|]. cbn [replicate].
  now rewrite Check_for_error_min, foldl_min_replicate.
Qed.

(** The minimum of 0/1 flags is their conjunction. *)
Lemma foldl_min_flags (acc : bool) (healthy : list bool) :
  foldl Z.min (Z.b2z acc) (Z.b2z <$> healthy) = Z.b2z (acc && all_healthy healthy).
Proof.
  unfold all_healthy.
  revert acc. induction healthy as [|h hs IH]; intros acc; simpl.
  - now rewrite andb_true_r.
  - replace (Z.min (Z.b2z acc) (Z.b2z h)) with (Z.b2z (acc && h))
      by (destruct acc, h; reflexivity).
    rewrite IH. now rewrite andb_assoc.
Qed.

(** The flag the root's allocation gives rise to, over the group. *)
Lemma root_alloc_flags {A} (ptr_ok : bool) (x : A) (xs : list A) :
  imap (fun r _ => Mpi.root_alloc_ok ptr_ok r) (x :: xs)
  = (if ptr_ok then 1 else 0) :: replicate (length xs) 1.
Proof.
  rewrite imap_cons. f_equal.
  - unfold Mpi.root_alloc_ok. now destruct ptr_ok.
  - rewrite (imap_ext _ (const (fun _ => 1))); [|reflexivity].
    rewrite imap_const. now apply const_fmap.
Qed.

Lemma foldl_min_ones (k : nat) : foldl Z.min 1 (replicate k 1) = 1.
Proof. apply foldl_min_replicate. Qed.

Lemma foldl_min_zero_ones (k : nat) : foldl Z.min 0 (replicate k 1) = 0.
Proof. induction k; simpl; auto. Qed.
End ErrorCheck.


(** ** Reading the parameters *)

Section Reads.
Context {D : Type} `{!DoubleOps D}.

Lemma scanf_d_Ret (w : World D) z rest :
  stdin w = z :: rest -> scanf_d w = Ret z (set_stdin rest w).
Proof. intros E. unfold scanf_d. now rewrite E. Qed.

Lemma Read_n_local_ok_0 (n : Z) (comm_sz : nat) :
  Mpi.Read_n_local_ok n comm_sz = 0 <-> n < 0 \/ Z.rem n (Z.of_nat comm_sz) <> 0.
Proof.
  unfold Mpi.Read_n_local_ok.
  destruct (Z.ltb_spec n 0), (Z.eqb_spec (Z.rem n (Z.of_nat comm_sz)) 0); simpl;
    split; intros; try discriminate; try tauto; lia.
Qed.

Lemma Read_n_run (comm_sz : nat) (n : Z) (rest : list Z) (w : World D) :
  (0 < comm_sz)%nat -> stdin w = n :: rest ->
  Mpi.Read_n comm_sz w
  = let asked :=
      put_stdout [Str ("What's the order of the vectors?" ++ nl)%string]
        (set_stdin rest w) in
    if Mpi.Read_n_local_ok n comm_sz =? 0
    then Exit (-1)
           (put_stderr
              [("Proc 0 > In Read_n, "
                  ++ "n should be >= 100,000 and evenly divisible by comm_sz"
                  ++ nl)%string] asked)
    else Ret (replicate comm_sz n,
              replicate comm_sz (Z.quot n (Z.of_nat comm_sz))) asked.
Proof.
  intros HP Hin. unfold Mpi.Read_n, Mpi.MPI_Bcast.
  erewrite bind_Ret by reflexivity.
  erewrite bind_Ret by (apply scanf_d_Ret; exact Hin).
  rewrite !fmap_replicate. cbv zeta.
  unfold mbind at 1, M_bind at 1.
  rewrite Check_for_error_uniform by exact HP.
  destruct (Mpi.Read_n_local_ok n comm_sz =? 0); reflexivity.
Qed.

Lemma Read_RandMax_run (comm_sz : nat) (randmax : Z) (rest : list Z)
    (w : World D) :
  (0 < comm_sz)%nat -> stdin w = randmax :: rest ->
  Mpi.Read_RandMax comm_sz w
  = let asked :=
      put_stdout [Str ("What's the max number for random?" ++ nl)%string]
        (set_stdin rest w) in
    if randmax <? 0
    then Exit (-1)
           (put_stderr
              [("Proc 0 > In Read_RandMax, randmax should be >= 100,000"
                  ++ nl)%string] asked)
    else Ret (replicate comm_sz randmax) asked.
Proof.
  intros HP Hin. unfold Mpi.Read_RandMax, Mpi.MPI_Bcast.
  erewrite bind_Ret by reflexivity.
  erewrite bind_Ret by (apply scanf_d_Ret; exact Hin).
  rewrite !fmap_replicate. cbv zeta.
  unfold mbind at 1, M_bind at 1.
  rewrite Check_for_error_uniform by exact HP.
  unfold Mpi.Read_RandMax_local_ok.
  destruct (randmax <? 0); reflexivity.
Qed.

Lemma Read_Scalar_run (comm_sz : nat) (scalar : Z) (rest : list Z)
    (w : World D) :
  stdin w = scalar :: rest ->
  Mpi.Read_Scalar comm_sz w
  = Ret (replicate comm_sz scalar)
      (put_stdout [Str (nl ++ "What's the number for the scalar?" ++ nl)%string]
         (set_stdin rest w)).
Proof.
  intros Hin. unfold Mpi.Read_Scalar, Mpi.MPI_Bcast.
  erewrite bind_Ret by reflexivity.
  erewrite bind_Ret by (apply scanf_d_Ret; exact Hin).
  reflexivity.
Qed.
End Reads.


(** ** Generation and the summary *)

Section GenerateAndPrint.
Context {D : Type} `{!DoubleOps D}.

Lemma put_stdout_app (ts1 ts2 : list (token D)) (w : World D) :
  put_stdout ts2 (put_stdout ts1 w) = put_stdout (ts1 ++ ts2) w.
Proof. unfold put_stdout. simpl. now rewrite app_assoc. Qed.

Lemma generated_S (rs : nat -> Z) (pos n : nat) (randmax : Z) :
  generated (D:=D) rs pos (S n) randmax
  = of_int (Z.rem (rs pos) randmax) :: generated rs (S pos) n randmax.
Proof.
  unfold generated. cbn [seq fmap list_fmap]. rewrite Nat.add_0_r. f_equal.
  rewrite <- fmap_S_seq, <- list_fmap_compose. apply list_fmap_ext.
  intros i k Hk. simpl. do 3 f_equal. lia.
Qed.

Lemma length_generated (rs : nat -> Z) (pos n : nat) (randmax : Z) :
  length (generated (D:=D) rs pos n randmax) = n.
Proof. unfold generated. now rewrite length_fmap, length_seq. Qed.

(** The filling loop, from any point on. *)
Lemma fill_loop (randmax : Z) (todo : list D) :
  randmax <> 0 ->
  forall (done : list D) (w : World D),
    for_from (length todo) (Z.of_nat (length done))
      (fun i a => r ← rand; v ← c_rem r randmax; write a i (of_int v))
      (done ++ todo) w
    = Ret (done ++ generated (rand_seq w) (rand_pos w) (length todo) randmax)
        (set_rand_pos (rand_pos w + length todo) w).
Proof.
  intros Hrm. induction todo as [|v todo IH]; intros done w.
  - cbn [length for_from generated seq fmap list_fmap].
    unfold mret, M_ret. f_equal. destruct w. unfold set_rand_pos. simpl.
    f_equal. lia.
  - cbn [length for_from].
    erewrite bind_Ret; cycle 1.
    { erewrite bind_Ret by reflexivity.
      unfold c_rem. destruct (Z.eqb_spec randmax 0) as [|_]; [contradiction|].
      erewrite bind_Ret by reflexivity.
      apply write_Ret. rewrite length_app. simpl. lia. }
    rewrite insert_app_r_alt, Nat.sub_diag by lia. cbn [list_insert].
    set (x := of_int (Z.rem (rand_seq w (rand_pos w)) randmax)).
    change (<[0%nat:=x]> (v :: todo)) with ([x] ++ todo).
    replace (Z.of_nat (length done) + 1) with (Z.of_nat (length (done ++ [x])))
      by (rewrite length_app; simpl; lia).
    rewrite app_assoc, IH, <- app_assoc, generated_S.
    cbn [rand_seq rand_pos set_rand_pos app]. f_equal.
    unfold set_rand_pos. simpl. f_equal. lia.
Qed.

Lemma fill_random_Ret (n : nat) (randmax : Z) (w : World D) :
  randmax <> 0 ->
  Mpi.fill_random (Mpi.fresh (Z.of_nat n)) (Z.of_nat n) randmax w
  = Ret (generated (rand_seq w) (rand_pos w) n randmax)
      (set_rand_pos (rand_pos w + n) w).
Proof.
  intros Hrm. unfold Mpi.fill_random. rewrite for_range_length.
  pose proof (fill_loop randmax (Mpi.fresh (Z.of_nat n)) Hrm [] w) as Hloop.
  rewrite length_fresh in Hloop. exact Hloop.
Qed.

(** With a bound of 0 the first element is already undefined. *)
Lemma fill_random_zero (a : list D) (n : Z) (w : World D) :
  0 < n -> Mpi.fill_random a n 0 w = Undef.
Proof.
  intros Hn. unfold Mpi.fill_random, for_range.
  destruct (Z.to_nat (n - 0)) eqn:E; [lia|]. reflexivity.
Qed.

(** With a positive bound every generated element is an integer of
    [0 .. randmax - 1], converted to [double]. *)
Lemma generated_in_range (rs : nat -> Z) (pos n : nat) (randmax : Z) (i : nat) :
  0 < randmax -> (forall k, 0 <= rs k) -> (i < n)%nat ->
  exists v, generated (D:=D) rs pos n randmax !! i = Some (of_int v)
            /\ 0 <= v < randmax.
Proof.
  intros Hrm Hrs Hi. exists (Z.rem (rs (pos + i)%nat) randmax). split.
  - unfold generated. rewrite list_lookup_fmap, lookup_seq_lt by exact Hi.
    reflexivity.
  - apply Z.rem_bound_pos; [apply Hrs | exact Hrm].
Qed.

(** One window loop: [k] elements from position [i] on, all in range. *)
Lemma window_loop (b : list D) (k : nat) :
  forall (i : nat) (w : World D),
    (i + k <= length b)%nat ->
    for_from k (Z.of_nat i)
      (fun i _ => v ← read b i; printf [Lf v; Str ","]) tt w
    = Ret tt (put_stdout (comma_separated (take k (drop i b))) w).
Proof.
  induction k as [|k IH]; intros i w Hik.
  - cbn [for_from take]. unfold mret, M_ret, comma_separated. simpl.
    now rewrite put_stdout_nil.
  - destruct (lookup_lt_is_Some_2 b i) as [v Hv]; [lia|].
    cbn [for_from].
    erewrite bind_Ret; cycle 1.
    { erewrite bind_Ret by (apply read_Ret; exact Hv). reflexivity. }
    replace (Z.of_nat i + 1) with (Z.of_nat (S i)) by lia.
    rewrite IH by lia. rewrite put_stdout_app.
    rewrite (drop_S b v i Hv). reflexivity.
Qed.

(** The summary of a vector of at least 10 elements. *)
Lemma print_summary_Ret (b : list D) (n : nat) (title : string) (w : World D) :
  length b = n -> (10 <= n)%nat ->
  Mpi.print_summary b (Z.of_nat n) title w
  = Ret tt (put_stdout (summary b (Z.of_nat n) title) w).
Proof.
  intros Hlen Hn.
  destruct (lookup_lt_is_Some_2 b 9) as [v9 Hv9]; [lia|].
  destruct (lookup_lt_is_Some_2 b (n - 1)) as [vl Hvl]; [lia|].
  unfold Mpi.print_summary, for_range.
  do 2 (erewrite bind_Ret by reflexivity).
  erewrite bind_Ret; cycle 1.
  { change (Z.to_nat (9 - 0)) with 9%nat. apply (window_loop b 9 0). lia. }
  erewrite bind_Ret by (apply (read_Ret b 9); exact Hv9).
  do 2 (erewrite bind_Ret by reflexivity).
  erewrite bind_Ret; cycle 1.
  { replace (Z.to_nat (Z.of_nat n - 1 - (Z.of_nat n - 10))) with 9%nat by lia.
    replace (Z.of_nat n - 10) with (Z.of_nat (n - 10)) by lia.
    apply (window_loop b 9 (n - 10)). lia. }
  replace (Z.of_nat n - 1) with (Z.of_nat (n - 1)) by lia.
  erewrite bind_Ret by (apply read_Ret; exact Hvl).
  unfold printf. rewrite !put_stdout_app. unfold summary, window.
  replace (Z.to_nat (Z.of_nat n - 10)) with (n - 10)%nat by lia.
  rewrite take_take, drop_drop.
  assert (E9 : take 1 (drop 9 (take 10 b)) = [v9]).
  { rewrite (drop_S (take 10 b) v9 9) by (rewrite lookup_take_lt by lia; exact Hv9).
    reflexivity. }
  assert (El : take 1 (drop (n - 10 + 9) b) = [vl]).
  { replace (n - 10 + 9)%nat with (n - 1)%nat by lia.
    rewrite (drop_S b vl (n - 1) Hvl). reflexivity. }
  rewrite E9, El. cbn [drop mbind list_bind app Nat.min].
  replace (Z.of_nat (n - 10)) with (Z.of_nat n - 10) by lia.
  rewrite <- !app_assoc. reflexivity.
Qed.

(** The summary of a shorter vector reads outside the vector. *)
Lemma print_summary_short (b : list D) (title : string) (w : World D) :
  (length b < 10)%nat ->
  Mpi.print_summary b (Z.of_nat (length b)) title w = Undef.
Proof.
  intros Hlen.
  do 10 (destruct b as [|? b]; [reflexivity|]).
  simpl in Hlen. lia.
Qed.
End GenerateAndPrint.


(** ** The collective functions when no allocation fails *)

Section Runs.
Context {D : Type} `{!DoubleOps D}.

Lemma malloc_Ret (r : nat) (w : World D) :
  mallocs w = [] -> malloc r w = Ret true w.
Proof. intros E. unfold malloc. now rewrite E, lookup_nil. Qed.

(** A process-local function that returns at every rank without touching
    the world. *)
Lemma each_rank_Ret {A B} (f : nat -> A -> M D B) (g : A -> B)
    (xs : per_rank A) (w : World D) :
  forall r0,
    (forall i x, xs !! i = Some x -> f (r0 + i)%nat x w = Ret (g x) w) ->
    each_rank f r0 xs w = Ret (g <$> xs) w.
Proof.
  induction xs as [|x xs IH]; intros r0 Hf; [reflexivity|].
  cbn [each_rank].
  erewrite bind_Ret by (rewrite <- (Nat.add_0_r r0); apply (Hf 0%nat); reflexivity).
  erewrite bind_Ret; [reflexivity|].
  apply IH. intros i y Hy. replace (S r0 + i)%nat with (r0 + S i)%nat by lia.
  apply Hf. exact Hy.
Qed.

Lemma at_root_replicate {A} (P : nat) (x : A) (w : World D) :
  (0 < P)%nat -> at_root (replicate P x) w = Ret x w.
Proof. intros HP. apply mine_Ret, lookup_replicate_2, HP. Qed.

Lemma Allocate_vectors_run (P : nat) (c : Z) (w : World D) :
  (0 < P)%nat -> mallocs w = [] ->
  Mpi.Allocate_vectors (replicate P c) w
  = Ret (Mpi.fresh <$> replicate P c, Mpi.fresh <$> replicate P c,
         Mpi.fresh <$> replicate P c) w.
Proof.
  intros HP Hm. unfold Mpi.Allocate_vectors.
  erewrite bind_Ret; cycle 1.
  { apply (each_rank_Ret _ (fun _ => (true, true, true))). intros i x _.
    do 3 (erewrite bind_Ret by (apply malloc_Ret; exact Hm)). reflexivity. }
  rewrite !fmap_replicate. cbn [negb orb].
  erewrite bind_Ret by (rewrite Check_for_error_uniform by exact HP; reflexivity).
  reflexivity.
Qed.

(** The check behind a successful allocation at the root. *)
Lemma root_alloc_check {A} (xs : per_rank A) (fname message : string)
    (w : World D) :
  xs <> [] ->
  Mpi.Check_for_error (imap (fun r _ => Mpi.root_alloc_ok true r) xs)
    fname message w
  = Ret tt w.
Proof.
  destruct xs as [|x xs]; [congruence|]. intros _.
  now rewrite root_alloc_flags, Check_for_error_min, foldl_min_ones.
Qed.

Lemma Generate_vector_run (P c : nat) (randmax : Z) (w : World D) :
  (0 < P)%nat -> randmax <> 0 -> mallocs w = [] ->
  Mpi.Generate_vector (Mpi.fresh <$> replicate P (Z.of_nat c))
    (replicate P (Z.of_nat c)) (replicate P (Z.of_nat (P * c)))
    (replicate P randmax) w
  = Ret (blocks (generated (rand_seq w) (rand_pos w) (P * c) randmax) c P)
      (set_rand_pos (rand_pos w + P * c) w).
Proof.
  intros HP Hrm Hm. unfold Mpi.Generate_vector.
  do 3 (erewrite bind_Ret by (apply at_root_replicate; exact HP)).
  erewrite bind_Ret by (apply malloc_Ret; exact Hm).
  erewrite bind_Ret; cycle 1.
  { apply root_alloc_check. destruct P; [lia|discriminate]. }
  erewrite bind_Ret by (apply fill_random_Ret; exact Hrm).
  apply MPI_Scatter_fresh. rewrite length_generated. lia.
Qed.

Lemma PrintTopDown_vector_run (P c : nat) (bs : per_rank (list D))
    (title : string) (w : World D) :
  (0 < P)%nat -> mallocs w = [] ->
  length bs = P -> Forall (fun blk => length blk = c) bs ->
  Mpi.PrintTopDown_vector bs (replicate P (Z.of_nat c))
    (replicate P (Z.of_nat (P * c))) title w
  = Mpi.print_summary (concat bs) (Z.of_nat (P * c)) title w.
Proof.
  intros HP Hm Hlen Hbs. unfold Mpi.PrintTopDown_vector.
  do 2 (erewrite bind_Ret by (apply at_root_replicate; exact HP)).
  erewrite bind_Ret by (apply malloc_Ret; exact Hm).
  erewrite bind_Ret; cycle 1.
  { apply root_alloc_check. destruct bs; [simpl in Hlen; lia|discriminate]. }
  erewrite bind_Ret; [reflexivity|].
  subst P. apply MPI_Gather_fresh. exact Hbs.
Qed.

Lemma scale_all_run (P c : nat) (scalar : Z) (bs : per_rank (list D))
    (w : World D) :
  length bs = P -> Forall (fun blk => length blk = c) bs ->
  Mpi.scale_all (replicate P scalar) bs (replicate P (Z.of_nat c)) w
  = Ret ((fun blk => scale blk scalar) <$> bs) w.
Proof.
  intros Hlen Hbs. unfold Mpi.scale_all.
  apply (each_rank_Ret _ (fun blk => scale blk scalar)). intros i blk Hi.
  pose proof (lookup_lt_Some _ _ _ Hi) as Hlt.
  erewrite bind_Ret by (apply mine_Ret, lookup_replicate_2; simpl; lia).
  erewrite bind_Ret by (apply mine_Ret, lookup_replicate_2; simpl; lia).
  rewrite <- (proj1 (Forall_lookup _ _) Hbs i blk Hi).
  apply Parallel_vector_scalar_Ret.
Qed.

Lemma concat_scale (bs : per_rank (list D)) (scalar : Z) :
  concat ((fun blk => scale blk scalar) <$> bs) = scale (concat bs) scalar.
Proof.
  unfold scale. induction bs as [|blk bs IH]; [reflexivity|].
  cbn [fmap list_fmap concat]. rewrite fmap_app. f_equal. exact IH.
Qed.

Lemma Forall_length_scale (c : nat) (bs : per_rank (list D)) (scalar : Z) :
  Forall (fun blk => length blk = c) bs ->
  Forall (fun blk => length blk = c) ((fun blk => scale blk scalar) <$> bs).
Proof.
  intros Hbs. apply Forall_fmap. eapply Forall_impl; [exact Hbs|].
  intros blk E. simpl. unfold scale. now rewrite length_fmap.
Qed.

(** The reports of the group: the root prints, nobody else does. *)
Lemma Display_all (v : D) (k : nat) (w : World D) :
  each_rank Mpi.Display_dot_result 0 (Some v :: replicate k None) w
  = Ret (replicate (S k) tt)
      (put_stdout [Str (nl ++ "Result of dot product: ")%string; Lf v; Str nl] w).
Proof.
  cbn [each_rank]. erewrite bind_Ret by reflexivity.
  erewrite bind_Ret; cycle 1.
  { apply (each_rank_Ret _ (fun _ => tt)). intros i x _. reflexivity. }
  rewrite fmap_replicate. reflexivity.
Qed.
End Runs.


(** ** Whole runs *)

Section WholeRuns.
Context {D : Type} `{!DoubleOps D}.

Lemma accepted_order (P c : nat) :
  (0 < P)%nat ->
  Mpi.Read_n_local_ok (Z.of_nat (P * c)) P = 1
  /\ Z.quot (Z.of_nat (P * c)) (Z.of_nat P) = Z.of_nat c.
Proof.
  intros HP. rewrite Nat2Z.inj_mul, Z.mul_comm. split.
  - unfold Mpi.Read_n_local_ok. rewrite Z.rem_mul by lia.
    destruct (Z.ltb_spec (Z.of_nat c * Z.of_nat P) 0); [nia|reflexivity].
  - apply Z.quot_mul. lia.
Qed.

Lemma blocks_one (a : list D) : blocks a (length a) 1 = [a].
Proof.
  unfold blocks, Mpi.block_of. cbn [seq fmap list_fmap Nat.mul drop].
  now rewrite take_ge.
Qed.

(** A run of the MPI program to its end: the order is [P * c >= 10], the
    bound is positive, three integers are on the input, and no allocation
    fails. *)
Lemma Mpi_main_run (P c : nat) (randmax scalar : Z) (rest : list Z)
    (w : World D) :
  (0 < P)%nat -> (10 <= P * c)%nat -> 0 < randmax ->
  stdin w = Z.of_nat (P * c) :: randmax :: scalar :: rest ->
  mallocs w = [] ->
  let n := (P * c)%nat in
  let x := generated (rand_seq w) (rand_pos w) n randmax in
  let y := generated (rand_seq w) (rand_pos w + n) n randmax in
  let partials :=
    zip_with localDotPartial
      ((fun blk => scale blk scalar) <$> blocks x c P)
      ((fun blk => scale blk scalar) <$> blocks y c P) in
  exists dot w',
    sum_partials partials = Some dot
    /\ Mpi.main P w = Ret 0 w'
    /\ stdout w' = stdout w ++ mpi_transcript (Z.of_nat n) scalar x y dot
    /\ stdin w' = rest
    /\ stderr w' = stderr w.
Proof.
  intros HP Hn Hrm Hin Hm n x y partials.
  destruct (accepted_order P c HP) as [Hok Hq]. fold n in Hok, Hq.
  assert (Hx : length x = (P * c)%nat) by apply length_generated.
  assert (Hy : length y = (P * c)%nat) by apply length_generated.
  pose proof (blocks_Forall_length x c P (Nat.eq_le_incl _ _ (eq_sym Hx))) as Hbx.
  pose proof (blocks_Forall_length y c P (Nat.eq_le_incl _ _ (eq_sym Hy))) as Hby.
  assert (Hpart : length partials = P).
  { unfold partials. rewrite length_zip_with, !length_fmap, !length_blocks. lia. }
  assert (Hdot : forall w0 : World D,
             Mpi.Parallel_vector_dot
               ((fun blk => scale blk scalar) <$> blocks x c P)
               ((fun blk => scale blk scalar) <$> blocks y c P)
               (replicate P (Z.of_nat c)) w0
             = Ret (Mpi.MPI_Reduce_SUM partials) w0).
  { intros w0.
    replace P with (length ((fun blk => scale blk scalar) <$> blocks x c P)) at 3
      by (rewrite length_fmap; apply length_blocks).
    apply Parallel_vector_dot_Ret.
    - now rewrite !length_fmap, !length_blocks.
    - apply Forall_length_scale; exact Hbx.
    - apply Forall_length_scale; exact Hby. }
  destruct partials as [|p ps] eqn:Epart; [simpl in Hpart; lia|].
  exists (foldl dadd p ps). eexists. split; [reflexivity|].
  split.
  - unfold Mpi.main.
    erewrite bind_Ret; cycle 1.
    { rewrite (Read_n_run P _ _ w HP Hin). cbv zeta. fold n.
      rewrite Hok, Hq. reflexivity. }
    cbv beta iota.
    erewrite bind_Ret; cycle 1.
    { erewrite Read_RandMax_run by (try exact HP; reflexivity). cbv zeta.
      destruct (Z.ltb_spec randmax 0); [lia|reflexivity]. }
    erewrite bind_Ret; cycle 1.
    { unfold Mpi.timed_part.
      erewrite bind_Ret by (apply Allocate_vectors_run; [exact HP|exact Hm]).
      cbv beta iota.
      erewrite bind_Ret by (apply Generate_vector_run; [exact HP|lia|exact Hm]).
      erewrite bind_Ret; cycle 1.
      { rewrite (PrintTopDown_vector_run P c) by
          (try exact HP; try exact Hm; try apply length_blocks; exact Hbx).
        rewrite concat_blocks by exact Hx.
        apply print_summary_Ret; [exact Hx|exact Hn]. }
      erewrite bind_Ret by (apply Generate_vector_run; [exact HP|lia|exact Hm]).
      erewrite bind_Ret; cycle 1.
      { rewrite (PrintTopDown_vector_run P c) by
          (try exact HP; try exact Hm; try apply length_blocks; exact Hby).
        rewrite concat_blocks by exact Hy.
        apply print_summary_Ret; [exact Hy|exact Hn]. }
      erewrite bind_Ret by (apply Read_Scalar_run; reflexivity).
      erewrite bind_Ret by (apply (scale_all_run P c); [apply length_blocks|exact Hbx]).
      erewrite bind_Ret; cycle 1.
      { rewrite (PrintTopDown_vector_run P c) by
          (try exact HP; try exact Hm; try (rewrite length_fmap; apply length_blocks);
           apply Forall_length_scale; exact Hbx).
        rewrite concat_scale, concat_blocks by exact Hx.
        apply print_summary_Ret; [unfold scale; rewrite length_fmap; exact Hx|exact Hn]. }
      erewrite bind_Ret by (apply (scale_all_run P c); [apply length_blocks|exact Hby]).
      erewrite bind_Ret; cycle 1.
      { rewrite (PrintTopDown_vector_run P c) by
          (try exact HP; try exact Hm; try (rewrite length_fmap; apply length_blocks);
           apply Forall_length_scale; exact Hby).
        rewrite concat_scale, concat_blocks by exact Hy.
        apply print_summary_Ret; [unfold scale; rewrite length_fmap; exact Hy|exact Hn]. }
      erewrite bind_Ret by apply Hdot.
      cbn [Mpi.MPI_Reduce_SUM].
      apply Display_all. }
    erewrite bind_Ret by reflexivity.
    reflexivity.
  - split; [|split; reflexivity].
    cbn [stdout put_stdout set_stdin set_rand_pos].
    unfold mpi_transcript. fold n x y.
    replace (rand_pos w + n)%nat with (rand_pos w + P * c)%nat by reflexivity.
    rewrite <- !app_assoc. reflexivity.
Qed.

(** The summing loop of the serial program, from any point on. *)
Lemma sum_loop (x y todo : list D) :
  length x = length y -> length x = length todo ->
  forall (px py done : list D) (w : World D),
    length px = length done -> length py = length done ->
    for_from (length x) (Z.of_nat (length done))
      (fun i z => a ← read (px ++ x) i; b ← read (py ++ y) i;
                  write z i (dadd a b))
      (done ++ todo) w
    = Ret (done ++ zip_with dadd x y) w.
Proof.
  revert y todo. induction x as [|a x IH]; intros [|b y] [|t todo] Hxy Hxt;
    try discriminate; intros px py done w Hpx Hpy; [reflexivity|].
  cbn [length for_from zip_with].
  erewrite bind_Ret; cycle 1.
  { erewrite bind_Ret by (apply read_Ret, list_lookup_middle; congruence).
    erewrite bind_Ret by (apply read_Ret, list_lookup_middle; congruence).
    apply write_Ret. rewrite length_app. simpl. lia. }
  rewrite insert_app_r_alt, Nat.sub_diag by lia.
  change (<[0%nat:=dadd a b]> (t :: todo)) with ([dadd a b] ++ todo).
  replace (Z.of_nat (length done) + 1) with (Z.of_nat (length (done ++ [dadd a b])))
    by (rewrite length_app; simpl; lia).
  rewrite (cons_middle a px x), (cons_middle b py y), !app_assoc.
  rewrite IH; try (rewrite ?length_app; simpl in *; lia).
  now rewrite <- app_assoc.
Qed.

Lemma Vector_sum_Ret (x y z : list D) (w : World D) :
  length x = length y -> length x = length z ->
  Serial.Vector_sum x y z (Z.of_nat (length x)) w = Ret (zip_with dadd x y) w.
Proof.
  intros Hxy Hxz. unfold Serial.Vector_sum. rewrite for_range_length.
  exact (sum_loop x y z Hxy Hxz [] [] [] w eq_refl eq_refl).
Qed.

(** A run of the serial program to its end: the order is at least 10, the
    bound is not 0, two integers are on the input, and no allocation
    fails. *)
Lemma Serial_main_run (n : nat) (randmax : Z) (rest : list Z) (w : World D) :
  (10 <= n)%nat -> randmax <> 0 ->
  stdin w = Z.of_nat n :: randmax :: rest ->
  mallocs w = [] ->
  let x := generated (rand_seq w) (rand_pos w) n randmax in
  let y := generated (rand_seq w) (rand_pos w + n) n randmax in
  exists w',
    Serial.main w = Ret 0 w'
    /\ stdout w' = stdout w ++ serial_transcript (Z.of_nat n) x y
    /\ stdin w' = rest
    /\ stderr w' = stderr w.
Proof.
  intros Hn Hrm Hin Hm x y.
  assert (Hx : length x = n) by apply length_generated.
  assert (Hy : length y = n) by apply length_generated.
  assert (Hsum : forall w0 : World D,
             Serial.Vector_sum x y (Mpi.fresh (Z.of_nat n)) (Z.of_nat n) w0
             = Ret (zip_with dadd x y) w0).
  { intros w0. rewrite <- Hx at 2. apply Vector_sum_Ret.
    - congruence.
    - rewrite length_fresh. exact Hx. }
  eexists. split.
  - unfold Serial.main.
    erewrite bind_Ret; cycle 1.
    { unfold Serial.Read_n.
      erewrite bind_Ret by reflexivity.
      erewrite bind_Ret by (apply scanf_d_Ret; exact Hin).
      destruct (Z.leb_spec (Z.of_nat n) 0); [lia|reflexivity]. }
    erewrite bind_Ret; cycle 1.
    { unfold Serial.Read_RandMax.
      erewrite bind_Ret by reflexivity.
      erewrite bind_Ret by (apply scanf_d_Ret; reflexivity).
      reflexivity. }
    erewrite bind_Ret; cycle 1.
    { unfold Serial.Allocate_vectors.
      do 3 (erewrite bind_Ret by (apply malloc_Ret; exact Hm)).
      reflexivity. }
    cbv beta iota.
    erewrite bind_Ret; cycle 1.
    { unfold Serial.Generate_vector.
      erewrite bind_Ret by (apply fill_random_Ret; exact Hrm).
      erewrite bind_Ret by reflexivity. reflexivity. }
    erewrite bind_Ret; cycle 1.
    { unfold Serial.Generate_vector.
      erewrite bind_Ret by (apply fill_random_Ret; exact Hrm).
      erewrite bind_Ret by reflexivity. reflexivity. }
    erewrite bind_Ret by (apply (print_summary_Ret x n); [exact Hx|exact Hn]).
    erewrite bind_Ret by (apply (print_summary_Ret y n); [exact Hy|exact Hn]).
    erewrite bind_Ret by apply Hsum.
    erewrite bind_Ret by reflexivity.
    reflexivity.
  - split; [|split; reflexivity].
    cbn [stdout put_stdout set_stdin set_rand_pos].
    unfold serial_transcript. rewrite <- !app_assoc. reflexivity.
Qed.
End WholeRuns.


(** ** Runs that differ in the scalar *)

Section Simulation.
Context {D : Type} `{!DoubleOps D}.

Lemma sim_refl (w : World D) : sim w w.
Proof. repeat split. Qed.

Lemma osim_verdict {A B} (R : A -> B -> Prop) (o1 : outcome D A) (o2 : outcome D B) :
  osim R o1 o2 -> verdict_of o1 = verdict_of o2.
Proof.
  destruct o1, o2; simpl; try contradiction; try reflexivity.
  - intros [_ (_ & _ & _ & E & _)]. now rewrite E.
  - intros [-> (_ & _ & _ & E & _)]. now rewrite E.
Qed.

Lemma osim_weaken {A B} (R R' : A -> B -> Prop) (o1 : outcome D A) (o2 : outcome D B) :
  (forall a b, R a b -> R' a b) -> osim R o1 o2 -> osim R' o1 o2.
Proof. intros HR. destruct o1, o2; simpl; auto. intros [? ?]; auto. Qed.

Lemma msim_weaken {A B} (R R' : A -> B -> Prop) (m1 : M D A) (m2 : M D B) :
  (forall a b, R a b -> R' a b) -> msim R m1 m2 -> msim R' m1 m2.
Proof. intros HR Hm w1 w2 Hs. eapply osim_weaken; eauto. Qed.

Lemma msim_ret {A B} (R : A -> B -> Prop) a b :
  R a b -> msim R (mret a : M D A) (mret b).
Proof. intros HR w1 w2 Hs. split; assumption. Qed.

Lemma msim_bind {A A' B B'} (R : A -> A' -> Prop) (R' : B -> B' -> Prop)
    (m1 : M D A) (m2 : M D A') (f1 : A -> M D B) (f2 : A' -> M D B') :
  msim R m1 m2 ->
  (forall a a', R a a' -> msim R' (f1 a) (f2 a')) ->
  msim R' (m1 ≫= f1) (m2 ≫= f2).
Proof.
  intros Hm Hf w1 w2 Hs. specialize (Hm w1 w2 Hs).
  unfold mbind, M_bind. destruct (m1 w1), (m2 w2); simpl in Hm |- *;
    try contradiction; try exact Hm.
  destruct Hm as [HR Hs']. now apply Hf.
Qed.

Lemma msim_undefined {A B} (R : A -> B -> Prop) :
  msim R (undefined : M D A) (undefined : M D B).
Proof. intros w1 w2 _. exact I. Qed.

Lemma msim_exit {A B} (R : A -> B -> Prop) (code : Z) :
  msim R (exit code : M D A) (exit code : M D B).
Proof. intros w1 w2 Hs. split; [reflexivity|exact Hs]. Qed.

Lemma msim_printf (ts1 ts2 : list (token D)) :
  msim any (printf ts1) (printf ts2).
Proof. intros w1 w2 Hs. split; [exact I|exact Hs]. Qed.

Lemma msim_fprintf_stderr (lines : list string) :
  msim any (fprintf_stderr (D:=D) lines) (fprintf_stderr lines).
Proof.
  intros w1 w2 (H1 & H2 & H3 & H4 & H5 & H6). split; [exact I|].
  repeat split; simpl; congruence.
Qed.

Lemma msim_malloc (r : nat) : msim eq (malloc (D:=D) r) (malloc r).
Proof.
  intros w1 w2 (H1 & H2 & H3 & H4 & H5 & H6). unfold malloc. rewrite H3.
  destruct (mallocs w2 !! r) as [[|b l]|]; simpl;
    repeat split; simpl; congruence.
Qed.

Lemma msim_rand : msim eq (rand (D:=D)) rand.
Proof.
  intros w1 w2 (H1 & H2 & H3 & H4 & H5 & H6). unfold rand.
  split; [congruence|]. repeat split; simpl; congruence.
Qed.

(** The integers read may differ; afterwards the inputs agree. *)
Lemma msim_scanf_d : msim any (scanf_d (D:=D)) scanf_d.
Proof.
  intros w1 w2 (H1 & H2 & H3 & H4 & H5 & H6). unfold scanf_d.
  destruct (stdin w1) as [|z1 l1], (stdin w2) as [|z2 l2]; try discriminate;
    [exact I|].
  simpl in H6. subst l2. split; [exact I|]. repeat split; simpl; congruence.
Qed.

Lemma msim_c_rem (r1 r2 randmax : Z) :
  msim any (c_rem (D:=D) r1 randmax) (c_rem r2 randmax).
Proof.
  unfold c_rem. destruct (randmax =? 0);
    [apply msim_undefined|now apply msim_ret].
Qed.

Lemma msim_read (b1 b2 : list D) (i : Z) :
  length b1 = length b2 -> msim any (read b1 i) (read b2 i).
Proof.
  intros Hlen. unfold read. destruct (i <? 0); [apply msim_undefined|].
  destruct (b1 !! Z.to_nat i) eqn:E1, (b2 !! Z.to_nat i) eqn:E2.
  - now apply msim_ret.
  - apply lookup_lt_Some in E1. apply lookup_ge_None in E2. lia.
  - apply lookup_lt_Some in E2. apply lookup_ge_None in E1. lia.
  - apply msim_undefined.
Qed.

Lemma msim_write (b1 b2 : list D) (i : Z) (v1 v2 : D) :
  length b1 = length b2 ->
  msim (fun a b : list D => length a = length b) (write b1 i v1) (write b2 i v2).
Proof.
  intros Hlen. unfold write. rewrite Hlen.
  destruct ((0 <=? i) && (i <? Z.of_nat (length b2)));
    [|apply msim_undefined].
  apply msim_ret. now rewrite !length_insert.
Qed.

Lemma msim_mine {A B} (R : A -> B -> Prop) (r : nat) (xs : per_rank A)
    (ys : per_rank B) :
  Forall2 R xs ys -> msim R (mine (D:=D) r xs) (mine r ys).
Proof.
  intros HF. unfold mine.
  destruct (xs !! r) eqn:E1, (ys !! r) eqn:E2.
  - apply msim_ret. eapply Forall2_lookup_lr; eauto.
  - apply lookup_lt_Some in E1. apply lookup_ge_None in E2.
    apply Forall2_length in HF. lia.
  - apply lookup_lt_Some in E2. apply lookup_ge_None in E1.
    apply Forall2_length in HF. lia.
  - apply msim_undefined.
Qed.

Lemma msim_mine_same {A} (r : nat) (xs : per_rank A) :
  msim eq (mine (D:=D) r xs) (mine r xs).
Proof.
  apply msim_mine, Forall_Forall2_diag, Forall_forall. intros x _. reflexivity.
Qed.

Lemma msim_for_from {S1 S2} (R : S1 -> S2 -> Prop)
    (body1 : Z -> S1 -> M D S1) (body2 : Z -> S2 -> M D S2) (k : nat) :
  (forall i s1 s2, R s1 s2 -> msim R (body1 i s1) (body2 i s2)) ->
  forall i s1 s2, R s1 s2 -> msim R (for_from k i body1 s1) (for_from k i body2 s2).
Proof.
  intros Hbody. induction k as [|k IH]; intros i s1 s2 HR; cbn [for_from].
  - now apply msim_ret.
  - eapply msim_bind; [now apply Hbody|]. intros a b Hab. now apply IH.
Qed.

Lemma msim_each_rank {A A' B B'} (Ra : A -> A' -> Prop) (Rb : B -> B' -> Prop)
    (f1 : nat -> A -> M D B) (f2 : nat -> A' -> M D B') (xs : per_rank A) :
  (forall r a a', Ra a a' -> msim Rb (f1 r a) (f2 r a')) ->
  forall (ys : per_rank A') r0,
    Forall2 Ra xs ys ->
    msim (Forall2 Rb) (each_rank f1 r0 xs) (each_rank f2 r0 ys).
Proof.
  intros Hf. induction xs as [|x xs IH]; intros ys r0 HF;
    inversion HF as [|? y ? ys' Hxy HF']; subst; cbn [each_rank].
  - apply msim_ret. constructor.
  - eapply msim_bind; [now apply Hf|]. intros b b' Hb.
    eapply msim_bind; [now apply IH|]. intros bs bs' Hbs.
    apply msim_ret. now constructor.
Qed.

Lemma msim_Check_for_error (local_ok : per_rank Z) (fname message : string) :
  msim any (Mpi.Check_for_error (D:=D) local_ok fname message)
    (Mpi.Check_for_error local_ok fname message).
Proof.
  unfold Mpi.Check_for_error.
  eapply msim_bind; [apply msim_fprintf_stderr|]. intros _ _ _.
  destruct (Mpi.all_continue _); [now apply msim_ret|].
  destruct (Mpi.all_exit _ _); [apply msim_exit|apply msim_undefined].
Qed.
End Simulation.


(** ** The functions of the program on blocks of the same shape *)

Section SimulationOfFunctions.
Context {D : Type} `{!DoubleOps D}.

Lemma same_shape_refl (xs : per_rank (list D)) : same_shape xs xs.
Proof. apply Forall_Forall2_diag, Forall_forall. reflexivity. Qed.

Lemma counts_fit_shape (count : Z) (bufs1 bufs2 : per_rank (list D))
    (counts : per_rank Z) :
  same_shape bufs1 bufs2 ->
  Mpi.counts_fit count bufs1 counts = Mpi.counts_fit count bufs2 counts.
Proof.
  intros Hs. unfold Mpi.counts_fit. rewrite (Forall2_length _ _ _ Hs).
  assert (E : forallb (fun buf : list D => count <=? Z.of_nat (length buf)) bufs1
              = forallb (fun buf : list D => count <=? Z.of_nat (length buf)) bufs2).
  { induction Hs as [|b1 b2 l1 l2 Hb _ IH]; [reflexivity|].
    cbn [forallb]. now rewrite Hb, IH. }
  now rewrite E.
Qed.

Lemma length_gathered (c : nat) (bufs1 bufs2 : per_rank (list D)) :
  same_shape bufs1 bufs2 ->
  length (concat (take c <$> bufs1)) = length (concat (take c <$> bufs2)).
Proof.
  intros Hs. induction Hs as [|b1 b2 l1 l2 Hb _ IH]; [reflexivity|].
  cbn [fmap list_fmap concat]. rewrite !length_app, !length_take. lia.
Qed.

Lemma msim_MPI_Scatter (a1 a2 : list D) (count : Z)
    (recv1 recv2 : per_rank (list D)) (counts : per_rank Z) :
  length a1 = length a2 -> same_shape recv1 recv2 ->
  msim same_shape (Mpi.MPI_Scatter a1 count recv1 counts)
    (Mpi.MPI_Scatter a2 count recv2 counts).
Proof.
  intros Ha Hs. unfold Mpi.MPI_Scatter.
  rewrite (counts_fit_shape count recv1 recv2 counts Hs), Ha.
  rewrite (Forall2_length _ _ _ Hs).
  destruct (_ && _); [|apply msim_undefined].
  apply msim_ret. apply Forall2_same_length_lookup_2.
  - rewrite !length_imap. exact (Forall2_length _ _ _ Hs).
  - intros r x y Hx Hy. rewrite list_lookup_imap in Hx, Hy.
    destruct (recv1 !! r) as [b1|] eqn:E1; [|discriminate].
    destruct (recv2 !! r) as [b2|] eqn:E2; [|discriminate].
    simpl in Hx, Hy. injection Hx as <-. injection Hy as <-.
    pose proof (Forall2_lookup_lr _ _ _ _ _ _ Hs E1 E2) as Hb. simpl in Hb.
    unfold Mpi.block_of. rewrite !length_app, !length_take, !length_drop. lia.
Qed.

Lemma msim_MPI_Gather (send1 send2 : per_rank (list D)) (counts : per_rank Z)
    (recv1 recv2 : list D) (count : Z) :
  same_shape send1 send2 -> length recv1 = length recv2 ->
  msim (fun a b : list D => length a = length b)
    (Mpi.MPI_Gather send1 counts recv1 count)
    (Mpi.MPI_Gather send2 counts recv2 count).
Proof.
  intros Hs Hr. unfold Mpi.MPI_Gather.
  rewrite (counts_fit_shape count send1 send2 counts Hs), Hr.
  rewrite (Forall2_length _ _ _ Hs).
  destruct (_ && _); [|apply msim_undefined].
  apply msim_ret. rewrite !length_app, !length_drop.
  rewrite (length_gathered _ send1 send2 Hs). lia.
Qed.

Lemma msim_window (b1 b2 : list D) (lo hi : Z) :
  length b1 = length b2 ->
  msim any
    (for_range lo hi (fun i _ => v ← read b1 i; printf [Lf v; Str ","]) tt)
    (for_range lo hi (fun i _ => v ← read b2 i; printf [Lf v; Str ","]) tt).
Proof.
  intros Hlen. unfold for_range. apply msim_for_from; [|exact I].
  intros i _ _ _. eapply msim_bind; [now apply msim_read|].
  intros v1 v2 _. apply msim_printf.
Qed.

Lemma msim_print_summary (b1 b2 : list D) (n : Z) (title : string) :
  length b1 = length b2 ->
  msim any (Mpi.print_summary b1 n title) (Mpi.print_summary b2 n title).
Proof.
  intros Hlen. unfold Mpi.print_summary.
  eapply msim_bind; [apply msim_printf|]. intros _ _ _.
  eapply msim_bind; [apply msim_printf|]. intros _ _ _.
  eapply msim_bind; [now apply msim_window|]. intros _ _ _.
  eapply msim_bind; [now apply msim_read|]. intros v1 v2 _.
  eapply msim_bind; [apply msim_printf|]. intros _ _ _.
  eapply msim_bind; [apply msim_printf|]. intros _ _ _.
  eapply msim_bind; [now apply msim_window|]. intros _ _ _.
  eapply msim_bind; [now apply msim_read|]. intros v1' v2' _.
  apply msim_printf.
Qed.

Lemma root_alloc_flags_shape {A} (ptr_ok : bool) (xs ys : per_rank A) :
  length xs = length ys ->
  imap (fun r _ => Mpi.root_alloc_ok ptr_ok r) xs
  = imap (fun r _ => Mpi.root_alloc_ok ptr_ok r) ys.
Proof.
  intros Hlen. apply list_eq. intros i. rewrite !list_lookup_imap.
  destruct (xs !! i) eqn:E1, (ys !! i) eqn:E2; try reflexivity.
  - apply lookup_lt_Some in E1. apply lookup_ge_None in E2. lia.
  - apply lookup_lt_Some in E2. apply lookup_ge_None in E1. lia.
Qed.

Lemma msim_PrintTopDown_vector (local_b1 local_b2 : per_rank (list D))
    (local_n n : per_rank Z) (title : string) :
  same_shape local_b1 local_b2 ->
  msim any (Mpi.PrintTopDown_vector local_b1 local_n n title)
    (Mpi.PrintTopDown_vector local_b2 local_n n title).
Proof.
  intros Hs. unfold Mpi.PrintTopDown_vector.
  eapply msim_bind; [apply msim_mine_same|].
  intros n0 ? <-.
  eapply msim_bind; [apply msim_mine_same|].
  intros local_n0 ? <-.
  eapply msim_bind; [apply msim_malloc|]. intros b_ok ? <-.
  rewrite (root_alloc_flags_shape b_ok local_b1 local_b2 (Forall2_length _ _ _ Hs)).
  eapply msim_bind; [apply msim_Check_for_error|]. intros _ _ _.
  eapply msim_bind; [now apply msim_MPI_Gather|]. intros b1 b2 Hb.
  now apply msim_print_summary.
Qed.

Lemma msim_fill_random (a1 a2 : list D) (n randmax : Z) :
  length a1 = length a2 ->
  msim (fun a b : list D => length a = length b)
    (Mpi.fill_random a1 n randmax) (Mpi.fill_random a2 n randmax).
Proof.
  intros Hlen. unfold Mpi.fill_random, for_range.
  apply msim_for_from; [|exact Hlen]. intros i s1 s2 Hs.
  eapply msim_bind; [apply msim_rand|]. intros r ? <-.
  eapply msim_bind; [apply msim_c_rem|]. intros v1 v2 _.
  now apply msim_write.
Qed.

Lemma msim_Generate_vector (local_a1 local_a2 : per_rank (list D))
    (local_n n randmax : per_rank Z) :
  same_shape local_a1 local_a2 ->
  msim same_shape (Mpi.Generate_vector local_a1 local_n n randmax)
    (Mpi.Generate_vector local_a2 local_n n randmax).
Proof.
  intros Hs. unfold Mpi.Generate_vector.
  eapply msim_bind; [apply msim_mine_same|].
  intros n0 ? <-.
  eapply msim_bind; [apply msim_mine_same|].
  intros local_n0 ? <-.
  eapply msim_bind; [apply msim_mine_same|].
  intros randmax0 ? <-.
  eapply msim_bind; [apply msim_malloc|]. intros a_ok ? <-.
  rewrite (root_alloc_flags_shape a_ok local_a1 local_a2 (Forall2_length _ _ _ Hs)).
  eapply msim_bind; [apply msim_Check_for_error|]. intros _ _ _.
  eapply msim_bind; [now apply msim_fill_random|]. intros a1 a2 Ha.
  now apply msim_MPI_Scatter.
Qed.

Lemma msim_Allocate_vectors (local_n : per_rank Z) :
  msim (fun r1 r2 : per_rank (list D) * per_rank (list D) * per_rank (list D) =>
          same_shape r1.1.1 r2.1.1 /\ same_shape r1.1.2 r2.1.2)
    (Mpi.Allocate_vectors local_n) (Mpi.Allocate_vectors local_n).
Proof.
  unfold Mpi.Allocate_vectors.
  eapply msim_bind.
  { apply (msim_each_rank eq eq).
    - intros r a ? <-.
      eapply msim_bind; [apply msim_malloc|]. intros x ? <-.
      eapply msim_bind; [apply msim_malloc|]. intros y ? <-.
      eapply msim_bind; [apply msim_malloc|]. intros z ? <-.
      now apply msim_ret.
    - apply Forall_Forall2_diag, Forall_forall. reflexivity. }
  intros ptrs1 ptrs2 Hp. apply list_eq_Forall2 in Hp. subst ptrs2.
  eapply msim_bind; [apply msim_Check_for_error|]. intros _ _ _.
  apply msim_ret. simpl. split; apply same_shape_refl.
Qed.

Lemma msim_Read_Scalar (comm_sz : nat) :
  msim (fun s1 s2 : per_rank Z => length s1 = length s2)
    (Mpi.Read_Scalar (D:=D) comm_sz) (Mpi.Read_Scalar comm_sz).
Proof.
  unfold Mpi.Read_Scalar.
  eapply msim_bind; [apply msim_printf|]. intros _ _ _.
  eapply msim_bind; [apply msim_scanf_d|]. intros s1 s2 _.
  apply msim_ret. unfold Mpi.MPI_Bcast. now rewrite !length_replicate.
Qed.

Lemma msim_Parallel_vector_scalar (s1 s2 : Z) (arr1 arr2 : list D)
    (local_n : Z) (r : nat) :
  length arr1 = length arr2 ->
  msim (fun a b : list D => length a = length b)
    (Mpi.Parallel_vector_scalar s1 arr1 local_n r)
    (Mpi.Parallel_vector_scalar s2 arr2 local_n r).
Proof.
  intros Hlen. unfold Mpi.Parallel_vector_scalar, for_range.
  apply msim_for_from; [|exact Hlen]. intros i a b Hab.
  eapply msim_bind; [now apply msim_read|]. intros v1 v2 _.
  now apply msim_write.
Qed.

Lemma msim_scale_all (scalar1 scalar2 : per_rank Z)
    (arr1 arr2 : per_rank (list D)) (local_n : per_rank Z) :
  length scalar1 = length scalar2 -> same_shape arr1 arr2 ->
  msim same_shape (Mpi.scale_all scalar1 arr1 local_n)
    (Mpi.scale_all scalar2 arr2 local_n).
Proof.
  intros Hsc Hs. unfold Mpi.scale_all.
  apply (msim_each_rank (fun a b : list D => length a = length b)); [|exact Hs].
  intros r a b Hab.
  eapply msim_bind; [apply (msim_mine any), Forall2_true; [constructor|exact Hsc]|].
  intros s1 s2 _.
  eapply msim_bind; [apply msim_mine_same|].
  intros ln ? <-.
  now apply msim_Parallel_vector_scalar.
Qed.

Lemma msim_local_dot (x1 x2 y1 y2 : list D) (local_n : Z) :
  length x1 = length x2 -> length y1 = length y2 ->
  msim any (Mpi.local_dot x1 y1 local_n) (Mpi.local_dot x2 y2 local_n).
Proof.
  intros Hx Hy. unfold Mpi.local_dot, for_range.
  apply msim_for_from; [|exact I]. intros i a b _.
  eapply msim_bind; [now apply msim_read|]. intros u1 u2 _.
  eapply msim_bind; [now apply msim_read|]. intros v1 v2 _.
  now apply msim_ret.
Qed.

Lemma same_presence_reduce (dots1 dots2 : per_rank D) :
  length dots1 = length dots2 ->
  same_presence (Mpi.MPI_Reduce_SUM dots1) (Mpi.MPI_Reduce_SUM dots2).
Proof.
  intros Hlen. destruct dots1 as [|d1 l1], dots2 as [|d2 l2]; try discriminate.
  - constructor.
  - simpl in Hlen. injection Hlen as Hlen. cbn [Mpi.MPI_Reduce_SUM].
    constructor.
    + split; intros _; eexists; reflexivity.
    + rewrite Hlen. apply Forall_Forall2_diag, Forall_forall. reflexivity.
Qed.

Lemma msim_Parallel_vector_dot (x1 x2 y1 y2 : per_rank (list D))
    (local_n : per_rank Z) :
  same_shape x1 x2 -> same_shape y1 y2 ->
  msim same_presence (Mpi.Parallel_vector_dot x1 y1 local_n)
    (Mpi.Parallel_vector_dot x2 y2 local_n).
Proof.
  intros Hx Hy. unfold Mpi.Parallel_vector_dot.
  eapply msim_bind.
  { apply (msim_each_rank (fun a b : list D => length a = length b) any);
      [|exact Hx].
    intros r a b Hab.
    eapply msim_bind; [apply msim_mine; exact Hy|]. intros u1 u2 Hu.
    eapply msim_bind; [apply msim_mine_same|].
    intros ln ? <-. now apply msim_local_dot. }
  intros dots1 dots2 Hd. apply msim_ret, same_presence_reduce.
  exact (Forall2_length _ _ _ Hd).
Qed.

Lemma msim_Display_dot_result (r : nat) (res1 res2 : option D) :
  (is_Some res1 <-> is_Some res2) ->
  msim any (Mpi.Display_dot_result r res1) (Mpi.Display_dot_result r res2).
Proof.
  intros Hp. unfold Mpi.Display_dot_result.
  destruct (r =? 0)%nat; [|now apply msim_ret].
  destruct res1 as [v1|], res2 as [v2|].
  - apply msim_printf.
  - destruct Hp as [Hp _]. destruct Hp as [? Hp]; [eexists; reflexivity|discriminate].
  - destruct Hp as [_ Hp]. destruct Hp as [? Hp]; [eexists; reflexivity|discriminate].
  - apply msim_undefined.
Qed.
End SimulationOfFunctions.


(** ** The timed part of [main] in runs that differ in the scalar *)

Section SimulationOfMain.
Context {D : Type} `{!DoubleOps D}.

Lemma msim_timed_part (comm_sz : nat) (n local_n randmax : per_rank Z) :
  msim any (Mpi.timed_part (D:=D) comm_sz n local_n randmax)
    (Mpi.timed_part comm_sz n local_n randmax).
Proof.
  unfold Mpi.timed_part.
  eapply msim_bind; [apply msim_Allocate_vectors|].
  intros [[x1 y1] z1] [[x2 y2] z2] [Hx Hy]. simpl in Hx, Hy.
  eapply msim_bind; [apply msim_Generate_vector; exact Hx|]. intros lx1 lx2 Hlx.
  eapply msim_bind; [apply msim_PrintTopDown_vector; exact Hlx|]. intros _ _ _.
  eapply msim_bind; [apply msim_Generate_vector; exact Hy|]. intros ly1 ly2 Hly.
  eapply msim_bind; [apply msim_PrintTopDown_vector; exact Hly|]. intros _ _ _.
  eapply msim_bind; [apply msim_Read_Scalar|]. intros s1 s2 Hs.
  eapply msim_bind; [apply msim_scale_all; [exact Hs|exact Hlx]|]. intros sx1 sx2 Hsx.
  eapply msim_bind; [apply msim_PrintTopDown_vector; exact Hsx|]. intros _ _ _.
  eapply msim_bind; [apply msim_scale_all; [exact Hs|exact Hly]|]. intros sy1 sy2 Hsy.
  eapply msim_bind; [apply msim_PrintTopDown_vector; exact Hsy|]. intros _ _ _.
  eapply msim_bind; [apply msim_Parallel_vector_dot; [exact Hsx|exact Hsy]|].
  intros r1 r2 Hr.
  apply (msim_weaken (Forall2 any)); [intros; exact I|].
  apply (msim_each_rank (fun a b : option D => is_Some a <-> is_Some b) any);
    [|exact Hr].
  intros r a b Hab. now apply msim_Display_dot_result.
Qed.

(** How [main] ends does not depend on the third integer of the input. *)
Lemma main_verdict_scalar (comm_sz : nat) (n randmax s1 s2 : Z)
    (rest : list Z) (w : World D) :
  verdict_of (Mpi.main comm_sz (set_stdin (n :: randmax :: s1 :: rest) w))
  = verdict_of (Mpi.main comm_sz (set_stdin (n :: randmax :: s2 :: rest) w)).
Proof.
  destruct comm_sz as [|P]; [reflexivity|].
  assert (HP : (0 < S P)%nat) by lia.
  unfold Mpi.main.
  pose proof (Read_n_run (S P) n (randmax :: s1 :: rest)
                (set_stdin (n :: randmax :: s1 :: rest) w) HP eq_refl) as R1.
  pose proof (Read_n_run (S P) n (randmax :: s2 :: rest)
                (set_stdin (n :: randmax :: s2 :: rest) w) HP eq_refl) as R2.
  cbv zeta in R1, R2.
  destruct (Mpi.Read_n_local_ok n (S P) =? 0).
  { rewrite (bind_Exit _ _ _ _ _ R1), (bind_Exit _ _ _ _ _ R2). reflexivity. }
  rewrite (bind_Ret _ _ _ _ _ R1), (bind_Ret _ _ _ _ _ R2). cbv beta iota.
  clear R1 R2.
  match goal with
  | |- verdict_of ((_ ≫= _) ?w1) = verdict_of ((_ ≫= _) ?w2) =>
      pose proof (Read_RandMax_run (S P) randmax (s1 :: rest) w1 HP eq_refl) as R1;
      pose proof (Read_RandMax_run (S P) randmax (s2 :: rest) w2 HP eq_refl) as R2
  end.
  cbv zeta in R1, R2.
  destruct (randmax <? 0).
  { rewrite (bind_Exit _ _ _ _ _ R1), (bind_Exit _ _ _ _ _ R2). reflexivity. }
  rewrite (bind_Ret _ _ _ _ _ R1), (bind_Ret _ _ _ _ _ R2).
  clear R1 R2.
  apply (osim_verdict any).
  eapply msim_bind; [apply msim_timed_part|intros _ _ _|].
  - eapply msim_bind; [apply msim_printf|]. intros _ _ _. now apply msim_ret.
  - repeat split.
Qed.

Lemma Read_Scalar_never_exits (comm_sz : nat) (w : World D) code w' :
  Mpi.Read_Scalar comm_sz w <> Exit code w'.
Proof.
  unfold Mpi.Read_Scalar, mbind, M_bind, printf, scanf_d. simpl.
  destruct (stdin w); discriminate.
Qed.

Lemma length_concat_uniform (c : nat) (bs : per_rank (list D)) :
  Forall (fun blk => length blk = c) bs -> length (concat bs) = (length bs * c)%nat.
Proof.
  intros Hbs. induction Hbs as [|blk bs Hblk _ IH]; [reflexivity|].
  cbn [concat length]. rewrite length_app, IH, Hblk. lia.
Qed.

(** The summary of a distributed vector of fewer than 10 elements reads
    outside the gathered vector. *)
Lemma PrintTopDown_vector_short (P c : nat) (bs : per_rank (list D))
    (title : string) (w : World D) :
  (0 < P)%nat -> mallocs w = [] ->
  length bs = P -> Forall (fun blk => length blk = c) bs ->
  (P * c < 10)%nat ->
  Mpi.PrintTopDown_vector bs (replicate P (Z.of_nat c))
    (replicate P (Z.of_nat (P * c))) title w
  = Undef.
Proof.
  intros HP Hm Hlen Hbs Hshort.
  rewrite (PrintTopDown_vector_run P c bs title w HP Hm Hlen Hbs).
  pose proof (length_concat_uniform c bs Hbs) as Hc. rewrite Hlen in Hc.
  rewrite <- Hc. apply print_summary_short. lia.
Qed.
End SimulationOfMain.


(** * Main results *)

(** ** C1: the dot product distributes across partitions *)

(** C1.  Under exact real arithmetic, for global vectors [x] and [y] of
    equal length [n] and a worker count [P] that divides [n], the dot
    product computed by the distributed pipeline on [P] workers (scatter
    into contiguous blocks, a local sum of products on every worker, the
    partials summed by the reduction) equals the one computed on a single
    worker, and both are the sum of the products [x[i]*y[i]]. *)
Theorem dot_distributes_across_partitions (P : nat) (x y : list R) (w : World R) :
  (0 < P)%nat -> length x = length y -> (length x `mod` P = 0)%nat ->
  distributed_dot P x y w = distributed_dot 1 x y w
  /\ distributed_dot 1 x y w = Ret (Some (localDotPartial x y)) w.
Proof.
  intros HP Hlen Hmod.
  rewrite (distributed_dot_exact P x y w HP Hlen Hmod).
  rewrite (distributed_dot_exact 1 x y w (Nat.lt_0_1) Hlen (Nat.mod_1_r _)).
  split; reflexivity.
Qed.

Lemma dot_distributes_across_partitions_witness :
  distributed_dot 2 [1; 2; 3; 4]%R [5; 6; 7; 8]%R (sample_world [])
  = distributed_dot 1 [1; 2; 3; 4]%R [5; 6; 7; 8]%R (sample_world [])
  /\ distributed_dot 1 [1; 2; 3; 4]%R [5; 6; 7; 8]%R (sample_world [])
     = Ret (Some (localDotPartial [1; 2; 3; 4]%R [5; 6; 7; 8]%R)) (sample_world []).
Proof.
  apply (dot_distributes_across_partitions 2 [1; 2; 3; 4]%R [5; 6; 7; 8]%R);
    [lia | reflexivity | reflexivity].
Defined.

(** ** C2: scatter then gather *)

Section BlockResults.
Context {D : Type} `{!DoubleOps D}.

(** C2.  For an order [n >= 0] and a worker count [P] dividing [n],
    [Generate_vector] scatters the vector [a] generated at the root into
    [P] blocks of [n / P] elements in rank order: block [r] holds the
    global positions [r * (n/P) .. (r+1) * (n/P) - 1] of [a].  The gather
    of [PrintTopDown_vector] puts these blocks back in rank order into a
    vector equal to [a], element for element, and [PrintTopDown_vector]
    on the blocks behaves as its printing part on [a] itself. *)
Theorem scatter_gather_roundtrip (P n : nat) (randmax : Z) (w : World D) :
  (0 < P)%nat -> (n `mod` P = 0)%nat -> randmax <> 0 -> mallocs w = [] ->
  exists bs : per_rank (list D),
    Mpi.Generate_vector (Mpi.fresh <$> replicate P (Z.of_nat (n / P)))
      (replicate P (Z.of_nat (n / P))) (replicate P (Z.of_nat n))
      (replicate P randmax) w
    = Ret bs (set_rand_pos (rand_pos w + n) w)
    /\ length bs = P
    /\ (forall r blk, bs !! r = Some blk ->
          length blk = (n / P)%nat
          /\ forall j, (j < n / P)%nat ->
                blk !! j
                = generated (rand_seq w) (rand_pos w) n randmax
                    !! (r * (n / P) + j)%nat)
    /\ (forall w' : World D,
          Mpi.MPI_Gather bs (replicate P (Z.of_nat (n / P)))
            (Mpi.fresh (Z.of_nat n)) (Z.of_nat (n / P)) w'
          = Ret (generated (rand_seq w) (rand_pos w) n randmax) w')
    /\ (forall title : string,
          Mpi.PrintTopDown_vector bs (replicate P (Z.of_nat (n / P)))
            (replicate P (Z.of_nat n)) title (set_rand_pos (rand_pos w + n) w)
          = Mpi.print_summary (generated (rand_seq w) (rand_pos w) n randmax)
              (Z.of_nat n) title (set_rand_pos (rand_pos w + n) w)).
Proof.
  intros HP Hmod Hrm Hm. destruct (quot_exact n P HP Hmod) as [_ Hn].
  set (c := (n / P)%nat) in *. clearbody c. subst n.
  set (a := generated (D:=D) (rand_seq w) (rand_pos w) (P * c) randmax).
  assert (Ha : length a = (P * c)%nat) by apply length_generated.
  assert (Hbs : Forall (fun blk => length blk = c) (blocks a c P))
    by (apply blocks_Forall_length; lia).
  exists (blocks a c P). split; [|split; [|split; [|split]]].
  - apply Generate_vector_run; assumption.
  - apply length_blocks.
  - intros r blk Hr. apply (blocks_lookup a c P r blk); [lia|exact Hr].
  - intros w'.
    pose proof (MPI_Gather_fresh (blocks a c P) c w' Hbs) as Hg.
    rewrite length_blocks, concat_blocks in Hg by lia. exact Hg.
  - intros title.
    rewrite (PrintTopDown_vector_run P c (blocks a c P) title
               (set_rand_pos (rand_pos w + P * c) w) HP Hm
               (length_blocks a c P) Hbs).
    now rewrite concat_blocks by lia.
Qed.

(** ** C4: scaling a block *)

(** C4.  On a block of [local_n] elements, [Parallel_vector_scalar]
    returns normally, touches nothing but the block, keeps its length, and
    leaves in every cell the product of the old element and the factor. *)
Theorem scalar_multiplies_in_place (scalar : Z) (local_arr : list D)
    (local_n : Z) (my_rank : nat) (w : World D) :
  Z.of_nat (length local_arr) = local_n ->
  exists arr' : list D,
    Mpi.Parallel_vector_scalar scalar local_arr local_n my_rank w = Ret arr' w
    /\ length arr' = length local_arr
    /\ forall i v, local_arr !! i = Some v ->
                   arr' !! i = Some (dmul v (of_int scalar)).
Proof.
  intros <-. exists (scale local_arr scalar). split; [|split].
  - apply Parallel_vector_scalar_Ret.
  - unfold scale. apply length_fmap.
  - intros i v Hi. unfold scale. now rewrite list_lookup_fmap, Hi.
Qed.

(** ** C3: the local partial and the reduction *)

(** C3.  On blocks of equal length the local loop returns the sum of the
    products [a[i]*b[i]], accumulated from 0.0 in increasing index order
    with the arithmetic of [double].  On a group whose blocks all have
    [c] elements, [Parallel_vector_dot] leaves the sum of the partials in
    the root's result and leaves every other rank's result untouched;
    [Display_dot_result] prints at the root only. *)
Theorem dot_partial_and_reduction (local_x local_y : per_rank (list D))
    (c : nat) (w : World D) :
  local_x <> [] ->
  length local_x = length local_y ->
  Forall (fun blk => length blk = c) local_x ->
  Forall (fun blk => length blk = c) local_y ->
  (forall r a b, local_x !! r = Some a -> local_y !! r = Some b ->
     Mpi.local_dot a b (Z.of_nat c) w = Ret (localDotPartial a b) w)
  /\ exists result : per_rank (option D),
       Mpi.Parallel_vector_dot local_x local_y
         (replicate (length local_x) (Z.of_nat c)) w = Ret result w
       /\ result !! 0%nat
          = Some (sum_partials (zip_with localDotPartial local_x local_y))
       /\ (forall r, (0 < r < length local_x)%nat -> result !! r = Some None)
       /\ (forall r res, r <> 0%nat -> Mpi.Display_dot_result r res w = Ret tt w).
Proof.
  intros Hne Hlen Hx Hy. split.
  - intros r a b Ha Hb.
    rewrite <- (proj1 (Forall_lookup _ _) Hx r a Ha).
    apply local_dot_Ret.
    rewrite (proj1 (Forall_lookup _ _) Hx r a Ha).
    now rewrite (proj1 (Forall_lookup _ _) Hy r b Hb).
  - exists (Mpi.MPI_Reduce_SUM (zip_with localDotPartial local_x local_y)).
    assert (Hz : zip_with localDotPartial local_x local_y <> []).
    { destruct local_x, local_y; try discriminate; congruence. }
    destruct (MPI_Reduce_SUM_root _ Hz) as [H0 Hr].
    rewrite length_zip_with_same in Hr by exact Hlen.
    repeat split; auto.
    + now apply Parallel_vector_dot_Ret.
    + intros r res Hr0. unfold Mpi.Display_dot_result.
      destruct r; [congruence|reflexivity].
Qed.
End BlockResults.

Lemma scatter_gather_roundtrip_witness :
  exists bs : per_rank (list float),
    Mpi.Generate_vector (Mpi.fresh <$> replicate 2 (Z.of_nat (12 / 2)))
      (replicate 2 (Z.of_nat (12 / 2))) (replicate 2 (Z.of_nat 12))
      (replicate 2 5) (sample_world [])
    = Ret bs (set_rand_pos (rand_pos (sample_world (D:=float) []) + 12)
                (sample_world []))
    /\ length bs = 2%nat
    /\ (forall r blk, bs !! r = Some blk ->
          length blk = (12 / 2)%nat
          /\ forall j, (j < 12 / 2)%nat ->
                blk !! j
                = generated (rand_seq (sample_world (D:=float) []))
                    (rand_pos (sample_world (D:=float) [])) 12 5
                    !! (r * (12 / 2) + j)%nat)
    /\ (forall w' : World float,
          Mpi.MPI_Gather bs (replicate 2 (Z.of_nat (12 / 2)))
            (Mpi.fresh (Z.of_nat 12)) (Z.of_nat (12 / 2)) w'
          = Ret (generated (rand_seq (sample_world (D:=float) []))
                   (rand_pos (sample_world (D:=float) [])) 12 5) w')
    /\ (forall title : string,
          Mpi.PrintTopDown_vector bs (replicate 2 (Z.of_nat (12 / 2)))
            (replicate 2 (Z.of_nat 12)) title
            (set_rand_pos (rand_pos (sample_world (D:=float) []) + 12)
               (sample_world []))
          = Mpi.print_summary
              (generated (rand_seq (sample_world (D:=float) []))
                 (rand_pos (sample_world (D:=float) [])) 12 5)
              (Z.of_nat 12) title
              (set_rand_pos (rand_pos (sample_world (D:=float) []) + 12)
                 (sample_world []))).
Proof.
  apply (scatter_gather_roundtrip 2 12 5 (sample_world (D:=float) []));
    [lia | reflexivity | lia | reflexivity].
Defined.

Lemma scalar_multiplies_in_place_witness :
  exists arr' : list float,
    Mpi.Parallel_vector_scalar (-3) [1; 2; 0.5]%float 3 0 (sample_world []) =
      Ret arr' (sample_world [])
    /\ length arr' = 3%nat
    /\ forall i v, [1; 2; 0.5]%float !! i = Some v ->
                   arr' !! i = Some (dmul v (of_int (-3))).
Proof.
  apply (scalar_multiplies_in_place (-3) [1; 2; 0.5]%float 3 0 (sample_world []));
    reflexivity.
Defined.

Lemma dot_partial_and_reduction_witness :
  exists result : per_rank (option float),
    Mpi.Parallel_vector_dot [[1; 2]; [3; 4]]%float [[5; 6]; [7; 8]]%float
      (replicate 2 2) (sample_world []) = Ret result (sample_world [])
    /\ result !! 0%nat
       = Some (sum_partials (zip_with localDotPartial
                               [[1; 2]; [3; 4]]%float [[5; 6]; [7; 8]]%float))
    /\ (forall r, (0 < r < 2)%nat -> result !! r = Some None)
    /\ (forall r (res : option float), r <> 0%nat ->
          Mpi.Display_dot_result r res (sample_world []) = Ret tt (sample_world [])).
Proof.
  apply (dot_partial_and_reduction [[1; 2]; [3; 4]]%float [[5; 6]; [7; 8]]%float
           2 (sample_world [])); [discriminate | reflexivity | | ];
    repeat constructor.
Defined.

Section ErrorResults.
Context {D : Type} `{!DoubleOps D}.

(** ** C5: the order validation *)

(** C5.  With the order [n] next on the input and a group of
    [comm_sz >= 1] processes, [Read_n] aborts the group through
    [Check_for_error] if and only if [n < 0] or [n % comm_sz != 0]; when it does not,
    every rank holds [n] and the local size [n / comm_sz]. *)
Theorem Read_n_validates_order (comm_sz : nat) (n : Z) (rest : list Z)
    (w : World D) :
  (0 < comm_sz)%nat -> stdin w = n :: rest ->
  let asked :=
    put_stdout [Str ("What's the order of the vectors?" ++ nl)%string]
      (set_stdin rest w) in
  let line :=
    ("Proc 0 > In Read_n, n should be >= 100,000 and evenly divisible by comm_sz"
       ++ nl)%string in
  ((exists code w', Mpi.Read_n comm_sz w = Exit code w')
   <-> n < 0 \/ Z.rem n (Z.of_nat comm_sz) <> 0)
  /\ (n < 0 \/ Z.rem n (Z.of_nat comm_sz) <> 0 ->
      Mpi.Read_n comm_sz w = Exit (-1) (put_stderr [line] asked))
  /\ (~ (n < 0 \/ Z.rem n (Z.of_nat comm_sz) <> 0) ->
      Mpi.Read_n comm_sz w
      = Ret (replicate comm_sz n,
             replicate comm_sz (Z.quot n (Z.of_nat comm_sz))) asked).
Proof.
  intros HP Hin asked line.
  pose proof (Read_n_run comm_sz n rest w HP Hin) as Hrun. cbv zeta in Hrun.
  pose proof (Read_n_local_ok_0 n comm_sz) as Hok.
  destruct (Z.eqb_spec (Mpi.Read_n_local_ok n comm_sz) 0) as [E|E].
  - repeat split.
    + intros _. now apply Hok.
    + intros _. eauto.
    + intros _. exact Hrun.
    + intros Hno. destruct Hno. now apply Hok.
  - repeat split.
    + intros (code & w' & Hex). rewrite Hrun in Hex. discriminate.
    + intros Hbad. destruct E. now apply Hok.
    + intros Hbad. destruct E. now apply Hok.
    + intros _. exact Hrun.
Qed.

(** ** C6: the group-wide error check *)

(** C6.  On a non-empty group [Check_for_error] combines the health flags (1 for
    healthy, 0 for unhealthy) by their minimum, which is their logical
    AND, and hands it to every rank.  If it is 1, every process returns
    and the world is unchanged.  If it is 0, the process of rank 0 writes
    the one line [Proc 0 > In <fname>, <message>] to [stderr], no other
    process writes anything, and every process exits with code -1. *)
Theorem error_check_is_conjunction (healthy : per_rank bool) (fname message : string)
    (w : World D) :
  healthy <> [] ->
  let local_ok := Z.b2z <$> healthy in
  let line := ("Proc 0 > In " ++ fname ++ ", " ++ message ++ nl)%string in
  Mpi.MPI_Allreduce_MIN local_ok
  = replicate (length healthy) (Z.b2z (all_healthy healthy))
  /\ (all_healthy healthy = true ->
      Mpi.Check_for_error local_ok fname message w = Ret tt w
      /\ forall r, Mpi.Check_for_error_proc 1 r fname message = ([], Mpi.Continues))
  /\ (all_healthy healthy = false ->
      Mpi.Check_for_error local_ok fname message w = Exit (-1) (put_stderr [line] w)
      /\ Mpi.Check_for_error_proc 0 0 fname message = ([line], Mpi.Exits (-1))
      /\ forall r, r <> 0%nat ->
           Mpi.Check_for_error_proc 0 r fname message = ([], Mpi.Exits (-1))).
Proof.
  intros Hne local_ok line. destruct healthy as [|h hs]; [congruence|].
  subst local_ok. cbn [fmap list_fmap].
  assert (Hmin : foldl Z.min (Z.b2z h) (Z.b2z <$> hs) = Z.b2z (all_healthy (h :: hs))).
  { rewrite foldl_min_flags. reflexivity. }
  split; [|split].
  - unfold Mpi.MPI_Allreduce_MIN. rewrite Hmin.
    cbn [length]. now rewrite length_fmap.
  - intros Hall. rewrite Check_for_error_min, Hmin, Hall. split; reflexivity.
  - intros Hall. rewrite Check_for_error_min, Hmin, Hall. repeat split.
    intros [|r] Hr; [congruence|reflexivity].
Qed.
End ErrorResults.

Lemma Read_n_validates_order_witness :
  ((exists code w', Mpi.Read_n 4 (sample_world (D:=float) [21; 10; 3]) = Exit code w')
   <-> 21 < 0 \/ Z.rem 21 (Z.of_nat 4) <> 0)
  /\ (21 < 0 \/ Z.rem 21 (Z.of_nat 4) <> 0 ->
      Mpi.Read_n 4 (sample_world (D:=float) [21; 10; 3])
      = Exit (-1)
          (put_stderr
             [("Proc 0 > In Read_n, n should be >= 100,000 and evenly divisible by comm_sz"
                 ++ nl)%string]
             (put_stdout [Str ("What's the order of the vectors?" ++ nl)%string]
                (set_stdin [10; 3] (sample_world [21; 10; 3])))))
  /\ (~ (21 < 0 \/ Z.rem 21 (Z.of_nat 4) <> 0) ->
      Mpi.Read_n 4 (sample_world (D:=float) [21; 10; 3])
      = Ret (replicate 4 21, replicate 4 (Z.quot 21 (Z.of_nat 4)))
          (put_stdout [Str ("What's the order of the vectors?" ++ nl)%string]
             (set_stdin [10; 3] (sample_world [21; 10; 3])))).
Proof.
  apply (Read_n_validates_order 4 21 [10; 3] (sample_world (D:=float) [21; 10; 3]));
    [lia | reflexivity].
Defined.

Lemma error_check_is_conjunction_witness :
  Mpi.MPI_Allreduce_MIN (Z.b2z <$> [true; false; true])
  = replicate 3 (Z.b2z (all_healthy [true; false; true]))
  /\ (all_healthy [true; false; true] = true ->
      Mpi.Check_for_error (Z.b2z <$> [true; false; true]) "Read_n" "bad order"
        (sample_world (D:=float) [])
      = Ret tt (sample_world [])
      /\ forall r, Mpi.Check_for_error_proc 1 r "Read_n" "bad order"
                   = ([], Mpi.Continues))
  /\ (all_healthy [true; false; true] = false ->
      Mpi.Check_for_error (Z.b2z <$> [true; false; true]) "Read_n" "bad order"
        (sample_world (D:=float) [])
      = Exit (-1)
          (put_stderr [("Proc 0 > In " ++ "Read_n" ++ ", " ++ "bad order" ++ nl)%string]
             (sample_world []))
      /\ Mpi.Check_for_error_proc 0 0 "Read_n" "bad order"
         = ([("Proc 0 > In " ++ "Read_n" ++ ", " ++ "bad order" ++ nl)%string],
            Mpi.Exits (-1))
      /\ forall r, r <> 0%nat ->
           Mpi.Check_for_error_proc 0 r "Read_n" "bad order" = ([], Mpi.Exits (-1))).
Proof.
  apply (error_check_is_conjunction [true; false; true] "Read_n" "bad order"
           (sample_world (D:=float) [])).
  discriminate.
Defined.

(** ** C7: the random bound *)

(** C7, at the input the program mishandles.  [Read_RandMax] rejects the
    negative bounds only, so it accepts the bound 0; the first
    [rand() % randmax] of [Generate_vector] is then a remainder by zero,
    and the run of [main] on the order 10 and the bound 0 is undefined. *)
Theorem randmax_zero_accepted_then_undefined :
  Mpi.Read_RandMax 1 (sample_world (D:=float) [0; 3])
  = Ret [0] (put_stdout [Str ("What's the max number for random?" ++ nl)%string]
               (set_stdin [3] (sample_world [0; 3])))
  /\ c_rem (rand_seq (sample_world (D:=float) []) 0) 0 (sample_world (D:=float) [])
     = Undef
  /\ Mpi.fill_random (Mpi.fresh 10) 10 0 (sample_world (D:=float) []) = Undef
  /\ Mpi.main 1 (sample_world (D:=float) [10; 0; 3]) = Undef.
Proof. repeat split; vm_compute; reflexivity. Qed.

(** ** C8: the summary windows *)

(** C8, at the input the program mishandles.  [Read_n] accepts the order
    0; the summary then reads [b[0]] of a vector of no elements, and the
    run of [main] is undefined.  The same happens with the order 5. *)
Theorem order_zero_accepted_then_out_of_bounds :
  Mpi.Read_n 1 (sample_world (D:=float) [0; 10; 3])
  = Ret ([0], [0])
      (put_stdout [Str ("What's the order of the vectors?" ++ nl)%string]
         (set_stdin [10; 3] (sample_world [0; 10; 3])))
  /\ read (D:=float) [] 0 (sample_world []) = Undef
  /\ Mpi.PrintTopDown_vector [[]] [0] [0] "Vector x" (sample_world (D:=float) [])
     = Undef
  /\ Mpi.main 1 (sample_world (D:=float) [0; 10; 3]) = Undef
  /\ Mpi.main 1 (sample_world (D:=float) [5; 10; 3]) = Undef.
Proof. repeat split; vm_compute; reflexivity. Qed.

(** ** C9: the serial program *)

(** C9 as it is stated fails.  On the order 10, the bound 10 and the
    scalar 3 both programs run to their end, but their outputs differ in
    format even with every number and the format of the elapsed time
    erased; the serial program leaves the scalar unread, and the line of
    the dot product stands in the output of the MPI program only. *)
Lemma serial_is_not_the_single_worker_run :
  verdict_of (Serial.main (sample_world (D:=float) [10; 10; 3])) = (Returned, [])
  /\ verdict_of (Mpi.main 1 (sample_world (D:=float) [10; 10; 3])) = (Returned, [])
  /\ format_of (stdout_of (Serial.main (sample_world (D:=float) [10; 10; 3])))
     <> format_of (stdout_of (Mpi.main 1 (sample_world (D:=float) [10; 10; 3])))
  /\ stdin_of (Serial.main (sample_world (D:=float) [10; 10; 3])) = [3]
  /\ stdin_of (Mpi.main 1 (sample_world (D:=float) [10; 10; 3])) = []
  /\ reports_dot (stdout_of (Serial.main (sample_world (D:=float) [10; 10; 3])))
     = false
  /\ reports_dot (stdout_of (Mpi.main 1 (sample_world (D:=float) [10; 10; 3])))
     = true.
Proof.
  split; [vm_compute; reflexivity|].
  split; [vm_compute; reflexivity|].
  split; [intros E; apply (f_equal length) in E; vm_compute in E; discriminate|].
  repeat split; vm_compute; reflexivity.
Qed.

Section RunResults.
Context {D : Type} `{!DoubleOps D}.

(** C9, amended.  With one worker, on the same input (an order
    [n >= 10], a bound [randmax > 0], then the scalar), the same sequence
    of [rand()] and no failing allocation, both programs run to their end
    with the same vectors [x] and [y] and print the same two summaries of
    them.  The MPI program goes on to read the scalar, to print the
    summaries of the scaled vectors and to print the dot product of the
    scaled vectors; the serial program prints a line per generated vector
    instead, and leaves the scalar unread. *)
Theorem serial_shares_generation_and_summaries (n : nat) (randmax scalar : Z)
    (rest : list Z) (w : World D) :
  (10 <= n)%nat -> 0 < randmax ->
  stdin w = Z.of_nat n :: randmax :: scalar :: rest ->
  mallocs w = [] ->
  let x := generated (rand_seq w) (rand_pos w) n randmax in
  let y := generated (rand_seq w) (rand_pos w + n) n randmax in
  exists ws wm,
    Serial.main w = Ret 0 ws
    /\ Mpi.main 1 w = Ret 0 wm
    /\ stdout ws = stdout w ++ serial_transcript (Z.of_nat n) x y
    /\ stdout wm
       = stdout w ++ mpi_transcript (Z.of_nat n) scalar x y
                       (localDotPartial (scale x scalar) (scale y scalar))
    /\ stdin ws = scalar :: rest
    /\ stdin wm = rest.
Proof.
  intros Hn Hrm Hin Hm x y.
  destruct (Serial_main_run n randmax (scalar :: rest) w Hn
              (not_eq_sym (Z.lt_neq _ _ Hrm)) Hin Hm)
    as (ws & Hs & Hso & Hsi & _).
  assert (Hn1 : (1 * n)%nat = n) by lia.
  destruct (Mpi_main_run 1 n randmax scalar rest w) as (dot & wm & Hd & Hr & Ho & Hi & _);
    try rewrite Hn1; auto.
  rewrite Hn1 in Hd, Ho.
  exists ws, wm. repeat split; auto.
  rewrite Ho. do 2 f_equal.
  assert (Hx : length x = n) by apply length_generated.
  assert (Hy : length y = n) by apply length_generated.
  fold x y in Hd.
  rewrite <- Hx in Hd at 1. rewrite <- Hy in Hd at 1.
  rewrite !blocks_one in Hd. simpl in Hd. congruence.
Qed.

(** ** C10: the scalar *)

(** C10.  [Read_Scalar] hands whatever integer is next on the input,
    unchanged, to every rank; it writes nothing to [stderr] and never
    exits.  The copies are what the blocks are multiplied by.  How a run
    of [main] ends (normal return, exit with a code, or undefined
    behaviour) and what it writes to [stderr] are the same for any two
    scalars. *)
Theorem scalar_is_never_validated (comm_sz : nat) (n randmax s1 s2 : Z)
    (rest : list Z) (w : World D) :
  Mpi.Read_Scalar comm_sz (set_stdin (s1 :: rest) w)
  = Ret (replicate comm_sz s1)
      (put_stdout [Str (nl ++ "What's the number for the scalar?" ++ nl)%string]
         (set_stdin rest w))
  /\ (forall (w0 : World D) code w', Mpi.Read_Scalar comm_sz w0 <> Exit code w')
  /\ (forall (c : nat) (bs : per_rank (list D)),
        length bs = comm_sz -> Forall (fun blk => length blk = c) bs ->
        Mpi.scale_all (replicate comm_sz s1) bs (replicate comm_sz (Z.of_nat c)) w
        = Ret ((fun blk => scale blk s1) <$> bs) w)
  /\ verdict_of (Mpi.main comm_sz (set_stdin (n :: randmax :: s1 :: rest) w))
     = verdict_of (Mpi.main comm_sz (set_stdin (n :: randmax :: s2 :: rest) w)).
Proof.
  split; [|split; [|split]].
  - rewrite (Read_Scalar_run comm_sz s1 rest (set_stdin (s1 :: rest) w) eq_refl).
    reflexivity.
  - intros w0 code w'. apply Read_Scalar_never_exits.
  - intros c bs Hlen Hbs. now apply scale_all_run.
  - apply main_verdict_scalar.
Qed.
End RunResults.

Lemma serial_shares_generation_and_summaries_witness :
  let w := sample_world (D:=float) [10; 10; 3] in
  let x := generated (D:=float) (rand_seq w) (rand_pos w) 10 10 in
  let y := generated (D:=float) (rand_seq w) (rand_pos w + 10) 10 10 in
  exists ws wm,
    Serial.main w = Ret 0 ws
    /\ Mpi.main 1 w = Ret 0 wm
    /\ stdout ws = stdout w ++ serial_transcript 10 x y
    /\ stdout wm
       = stdout w ++ mpi_transcript 10 3 x y
                       (localDotPartial (scale x 3) (scale y 3))
    /\ stdin ws = [3]
    /\ stdin wm = [].
Proof.
  apply (serial_shares_generation_and_summaries 10 10 3 []
           (sample_world (D:=float) [10; 10; 3]));
    [lia | lia | reflexivity | reflexivity].
Defined.

Lemma scalar_is_never_validated_witness :
  Mpi.Read_Scalar 2 (set_stdin [-3] (sample_world (D:=float) []))
  = Ret (replicate 2 (-3))
      (put_stdout [Str (nl ++ "What's the number for the scalar?" ++ nl)%string]
         (set_stdin [] (sample_world [])))
  /\ (forall (w0 : World float) code w', Mpi.Read_Scalar 2 w0 <> Exit code w')
  /\ (forall (c : nat) (bs : per_rank (list float)),
        length bs = 2%nat -> Forall (fun blk => length blk = c) bs ->
        Mpi.scale_all (replicate 2 (-3)) bs (replicate 2 (Z.of_nat c))
          (sample_world [])
        = Ret ((fun blk => scale blk (-3)) <$> bs) (sample_world []))
  /\ verdict_of (Mpi.main 2 (set_stdin [20; 10; -3] (sample_world (D:=float) [])))
     = verdict_of (Mpi.main 2 (set_stdin [20; 10; 0] (sample_world (D:=float) []))).
Proof.
  apply (scalar_is_never_validated 2 20 10 (-3) 0 [] (sample_world (D:=float) [])).
Defined.

(** * Further properties of the two programs *)

(** ** Allocation with an arbitrary schedule of failures *)

Section Allocation.
Context {D : Type} `{!DoubleOps D}.

Lemma set_mallocs_same (w : World D) : set_mallocs (mallocs w) w = w.
Proof. now destruct w. Qed.

Lemma malloc_general (r : nat) (w : World D) :
  malloc r w = Ret (malloc_result (pending r w) 0) (after_mallocs r 1 w).
Proof.
  unfold malloc, pending, malloc_result, after_mallocs.
  destruct (mallocs w !! r) as [[|b rest]|] eqn:E; simpl.
  - f_equal. rewrite <- (set_mallocs_same w) at 1. f_equal.
    apply list_eq. intros i. destruct (decide (r = i)) as [<-|Hne].
    + now rewrite list_lookup_alter_eq, E.
    + now rewrite list_lookup_alter_ne.
  - do 2 f_equal. apply list_eq. intros i. destruct (decide (r = i)) as [<-|Hne].
    + rewrite list_lookup_alter_eq, E, list_lookup_insert_eq; [reflexivity|].
      now apply lookup_lt_Some in E.
    + now rewrite list_lookup_alter_ne, list_lookup_insert_ne.
  - f_equal. rewrite <- (set_mallocs_same w) at 1. f_equal.
    apply list_eq. intros i. destruct (decide (r = i)) as [<-|Hne].
    + now rewrite list_lookup_alter_eq, E.
    + now rewrite list_lookup_alter_ne.
Qed.

Lemma pending_after_same (r k : nat) (w : World D) :
  pending r (after_mallocs r k w) = drop k (pending r w).
Proof.
  unfold pending, after_mallocs. simpl. rewrite list_lookup_alter_eq.
  destruct (mallocs w !! r); simpl; [reflexivity|]. now rewrite drop_nil.
Qed.

Lemma pending_after_other (r r' k : nat) (w : World D) :
  r <> r' -> pending r' (after_mallocs r k w) = pending r' w.
Proof.
  intros Hne. unfold pending, after_mallocs. simpl.
  now rewrite list_lookup_alter_ne.
Qed.

Lemma after_mallocs_add (r k1 k2 : nat) (w : World D) :
  after_mallocs r k2 (after_mallocs r k1 w) = after_mallocs r (k1 + k2) w.
Proof.
  unfold after_mallocs, set_mallocs. simpl. f_equal.
  rewrite list_alter_alter_eq. apply list_alter_ext; [|reflexivity].
  intros row _. simpl. apply drop_drop.
Qed.

Lemma malloc_result_drop (row : list bool) (k j : nat) :
  malloc_result (drop k row) j = malloc_result row (k + j).
Proof. unfold malloc_result. now rewrite lookup_drop. Qed.

(** The three allocations of one rank. *)
Lemma three_mallocs (r : nat) (w : World D) :
  (x ← malloc r; y ← malloc r; z ← malloc r; mret (x, y, z)) w
  = Ret (malloc_result (pending r w) 0, malloc_result (pending r w) 1,
         malloc_result (pending r w) 2)
      (after_mallocs r 3 w).
Proof.
  erewrite bind_Ret by apply malloc_general.
  erewrite bind_Ret by apply malloc_general.
  erewrite bind_Ret by apply malloc_general.
  rewrite !after_mallocs_add, !pending_after_same, !malloc_result_drop.
  reflexivity.
Qed.
End Allocation.

Section AllocationOfTheGroup.
Context {D : Type} `{!DoubleOps D}.

(** The allocations of the ranks [r0], [r0 + 1], ... in turn. *)
Lemma allocation_of_ranks (local_n : per_rank Z) :
  forall (r0 : nat) (w : World D),
    each_rank (fun r (_ : Z) =>
                 x ← malloc r; y ← malloc r; z ← malloc r; mret (x, y, z))
      r0 local_n w
    = Ret ((fun r => (malloc_result (pending r w) 0, malloc_result (pending r w) 1,
                      malloc_result (pending r w) 2)) <$> seq r0 (length local_n))
        (set_mallocs (foldl (fun ms r => alter (drop 3) r ms) (mallocs w)
                        (seq r0 (length local_n))) w).
Proof.
  induction local_n as [|c local_n IH]; intros r0 w.
  - cbn [each_rank length seq fmap list_fmap foldl].
    now rewrite set_mallocs_same.
  - cbn [each_rank length seq fmap list_fmap foldl].
    erewrite bind_Ret by apply three_mallocs.
    erewrite bind_Ret by apply IH.
    unfold mret, M_ret. f_equal. f_equal.
    apply list_fmap_ext. intros i r Hr. apply lookup_seq in Hr as [-> _].
    now rewrite pending_after_other by lia.
Qed.

Lemma all_healthy_Forall (healthy : per_rank bool) :
  all_healthy healthy = true <-> Forall (fun h => h = true) healthy.
Proof.
  unfold all_healthy. induction healthy as [|h hs IH]; simpl.
  - split; [constructor|reflexivity].
  - rewrite andb_true_iff, IH. split.
    + intros [? ?]. now constructor.
    + intros H. inversion H. now split.
Qed.

Lemma three_ok_true (r : nat) (w : World D) :
  three_ok r w = true
  <-> forall k, (k < 3)%nat -> pending r w !! k <> Some false.
Proof.
  unfold three_ok, malloc_result. rewrite !andb_true_iff. split.
  - intros [[H0 H1] H2] k Hk E.
    destruct k as [|[|[|k]]]; [| | |lia]; rewrite E in *; discriminate.
  - intros H. repeat split.
    + specialize (H 0%nat). destruct (pending r w !! 0%nat) as [[|]|]; auto.
      exfalso. now apply H; [lia|].
    + specialize (H 1%nat). destruct (pending r w !! 1%nat) as [[|]|]; auto.
      exfalso. now apply H; [lia|].
    + specialize (H 2%nat). destruct (pending r w !! 2%nat) as [[|]|]; auto.
      exfalso. now apply H; [lia|].
Qed.

Lemma group_allocation_ok (P : nat) (w : World D) :
  all_healthy ((fun r => three_ok r w) <$> seq 0 P) = true
  <-> forall r k, (r < P)%nat -> (k < 3)%nat -> pending r w !! k <> Some false.
Proof.
  rewrite all_healthy_Forall, Forall_fmap, Forall_lookup. split.
  - intros H r k Hr Hk. apply three_ok_true; [|exact Hk].
    apply (H r r). now apply lookup_seq_lt.
  - intros H i r Hi. apply lookup_seq in Hi as [-> Hi]. simpl.
    apply three_ok_true. intros k Hk. now apply H.
Qed.

(** [Allocate_vectors] in terms of the schedule. *)
Lemma Allocate_vectors_general (local_n : per_rank Z) (w : World D) :
  local_n <> [] ->
  Mpi.Allocate_vectors local_n w
  = if all_healthy ((fun r => three_ok r w) <$> seq 0 (length local_n))
    then Ret (Mpi.fresh <$> local_n, Mpi.fresh <$> local_n, Mpi.fresh <$> local_n)
           (after_allocation (length local_n) w)
    else Exit (-1)
           (put_stderr
              [("Proc 0 > In Allocate_vectors, Can't allocate local vector(s)"
                  ++ nl)%string]
              (after_allocation (length local_n) w)).
Proof.
  intros Hne. unfold Mpi.Allocate_vectors.
  erewrite bind_Ret by apply allocation_of_ranks.
  rewrite <- list_fmap_compose.
  rewrite (list_fmap_ext _ (fun r => Z.b2z (three_ok r w)) (seq 0 (length local_n)))
    by (intros i r _; unfold three_ok; simpl;
        destruct (malloc_result (pending r w) 0), (malloc_result (pending r w) 1),
          (malloc_result (pending r w) 2); reflexivity).
  rewrite (list_fmap_compose (fun r => three_ok r w) Z.b2z).
  destruct local_n as [|c local_n]; [congruence|].
  cbn [length seq fmap list_fmap].
  unfold mbind at 1, M_bind at 1.
  rewrite Check_for_error_min, foldl_min_flags.
  change (three_ok 0 w && all_healthy ((fun r => three_ok r w) <$> seq 1 (length local_n)))
    with (all_healthy (three_ok 0 w :: ((fun r => three_ok r w) <$> seq 1 (length local_n)))).
  destruct (all_healthy _); reflexivity.
Qed.
End AllocationOfTheGroup.

(** ** The error check on arbitrary integer flags *)

Section LeastFlag.

Lemma foldl_min_le (vs : list Z) :
  forall v x, x ∈ v :: vs -> foldl Z.min v vs <= x.
Proof.
  induction vs as [|u vs IH]; intros v x Hx; cbn [foldl].
  - apply elem_of_cons in Hx as [->|Hx]; [lia|]. now apply elem_of_nil in Hx.
  - apply elem_of_cons in Hx as [->|Hx].
    + etransitivity; [apply (IH _ (Z.min v u)); left|lia].
    + apply elem_of_cons in Hx as [->|Hx].
      * etransitivity; [apply (IH _ (Z.min v u)); left|lia].
      * apply IH. now right.
Qed.

Lemma foldl_min_elem (vs : list Z) :
  forall v, foldl Z.min v vs ∈ v :: vs.
Proof.
  induction vs as [|u vs IH]; intros v; cbn [foldl]; [left|].
  specialize (IH (Z.min v u)). apply elem_of_cons in IH as [E|Hin].
  - rewrite E. destruct (Z.min_spec v u) as [[_ ->]|[_ ->]]; [left|right; left].
  - right. now right.
Qed.
End LeastFlag.

(** ** Generation and the summary with an arbitrary schedule of failures *)

Section RootAllocation.
Context {D : Type} `{!DoubleOps D}.

(** The check behind the allocation of the root's temporary vector. *)
Lemma root_alloc_check_general {A} (ptr_ok : bool) (x : A) (xs : per_rank A)
    (fname message : string) (w : World D) :
  Mpi.Check_for_error (imap (fun r _ => Mpi.root_alloc_ok ptr_ok r) (x :: xs))
    fname message w
  = if ptr_ok then Ret tt w
    else Exit (-1)
           (put_stderr [("Proc 0 > In " ++ fname ++ ", " ++ message ++ nl)%string] w).
Proof.
  rewrite root_alloc_flags, Check_for_error_min.
  destruct ptr_ok; [now rewrite foldl_min_ones|now rewrite foldl_min_zero_ones].
Qed.

Lemma Generate_vector_failure (a : list D) (local_a : per_rank (list D))
    (ln n rm : Z) (local_n ns randmax : per_rank Z) (w : World D) :
  malloc_result (pending 0 w) 0 = false ->
  Mpi.Generate_vector (a :: local_a) (ln :: local_n) (n :: ns) (rm :: randmax) w
  = Exit (-1)
      (put_stderr
         [("Proc 0 > In Generate_vector, Can't allocate temporary vector" ++ nl)%string]
         (after_mallocs 0 1 w)).
Proof.
  intros Hfail. unfold Mpi.Generate_vector.
  do 3 (erewrite bind_Ret by reflexivity).
  erewrite bind_Ret by apply malloc_general.
  rewrite Hfail.
  erewrite bind_Exit by (rewrite root_alloc_check_general; reflexivity).
  reflexivity.
Qed.

Lemma Generate_vector_general (P c : nat) (randmax : Z) (w : World D) :
  (0 < P)%nat -> randmax <> 0 ->
  malloc_result (pending 0 w) 0 = true ->
  Mpi.Generate_vector (Mpi.fresh <$> replicate P (Z.of_nat c))
    (replicate P (Z.of_nat c)) (replicate P (Z.of_nat (P * c)))
    (replicate P randmax) w
  = Ret (blocks (generated (rand_seq w) (rand_pos w) (P * c) randmax) c P)
      (set_rand_pos (rand_pos w + P * c) (after_mallocs 0 1 w)).
Proof.
  intros HP Hrm Hok. unfold Mpi.Generate_vector.
  do 3 (erewrite bind_Ret by (apply at_root_replicate; exact HP)).
  erewrite bind_Ret by apply malloc_general.
  rewrite Hok.
  erewrite bind_Ret; cycle 1.
  { destruct P as [|P]; [lia|]. cbn [replicate fmap list_fmap].
    rewrite root_alloc_check_general. reflexivity. }
  erewrite bind_Ret by (apply fill_random_Ret; exact Hrm).
  apply MPI_Scatter_fresh. rewrite length_generated. lia.
Qed.

Lemma PrintTopDown_vector_general (P c : nat) (bs : per_rank (list D))
    (title : string) (w : World D) :
  (0 < P)%nat -> length bs = P -> Forall (fun blk => length blk = c) bs ->
  Mpi.PrintTopDown_vector bs (replicate P (Z.of_nat c))
    (replicate P (Z.of_nat (P * c))) title w
  = if malloc_result (pending 0 w) 0
    then Mpi.print_summary (concat bs) (Z.of_nat (P * c)) title (after_mallocs 0 1 w)
    else Exit (-1)
           (put_stderr
              [("Proc 0 > In PrintTopDown_vector, Can't allocate temporary vector"
                  ++ nl)%string]
              (after_mallocs 0 1 w)).
Proof.
  intros HP Hlen Hbs. unfold Mpi.PrintTopDown_vector.
  do 2 (erewrite bind_Ret by (apply at_root_replicate; exact HP)).
  erewrite bind_Ret by apply malloc_general.
  destruct bs as [|b bs]; [simpl in Hlen; lia|].
  destruct (malloc_result (pending 0 w) 0).
  - erewrite bind_Ret by (rewrite root_alloc_check_general; reflexivity).
    erewrite bind_Ret; [reflexivity|].
    subst P. apply MPI_Gather_fresh. exact Hbs.
  - erewrite bind_Exit by (rewrite root_alloc_check_general; reflexivity). reflexivity.
Qed.
End RootAllocation.

(** ** Scaling and the dot product in exact arithmetic *)

Section ExactAlgebra.

Lemma scale_scale (arr : list R) (k1 k2 : Z) :
  scale (scale arr k1) k2 = scale arr (k1 * k2).
Proof.
  unfold scale. rewrite <- list_fmap_compose. apply list_fmap_ext.
  intros i v _. simpl. rewrite mult_IZR. lra.
Qed.

Lemma scale_one (arr : list R) : scale arr 1 = arr.
Proof.
  unfold scale. rewrite <- (list_fmap_id arr) at 2. apply list_fmap_ext.
  intros i v _. simpl. lra.
Qed.

Lemma localDotPartial_cons (a b : R) (x y : list R) :
  localDotPartial (a :: x) (b :: y) = (a * b + localDotPartial x y)%R.
Proof.
  unfold localDotPartial. cbn [zip_with foldl]. rewrite foldl_Rplus_acc.
  simpl. lra.
Qed.

Lemma localDotPartial_comm (x : list R) :
  forall y, localDotPartial x y = localDotPartial y x.
Proof.
  induction x as [|a x IH]; intros [|b y]; try reflexivity.
  rewrite !localDotPartial_cons, IH. lra.
Qed.

Lemma localDotPartial_scale (k : Z) (x : list R) :
  forall y,
    localDotPartial (scale x k) (scale y k)
    = (IZR k * IZR k * localDotPartial x y)%R.
Proof.
  induction x as [|a x IH]; intros [|b y];
    try (unfold localDotPartial; simpl; lra).
  change (scale (a :: x) k) with ((a * IZR k)%R :: scale x k).
  change (scale (b :: y) k) with ((b * IZR k)%R :: scale y k).
  rewrite !localDotPartial_cons, IH. lra.
Qed.

Lemma blocks_scale (x : list R) (k : Z) (c P : nat) :
  (fun blk => scale blk k) <$> blocks x c P = blocks (scale x k) c P.
Proof.
  unfold blocks. rewrite <- list_fmap_compose. apply list_fmap_ext.
  intros i r _. simpl. unfold Mpi.block_of, scale.
  now rewrite fmap_take, fmap_drop.
Qed.

Lemma sum_partials_total (c P : nat) (x y : list R) :
  (0 < P)%nat -> length x = (P * c)%nat -> length y = (P * c)%nat ->
  sum_partials (zip_with localDotPartial (blocks x c P) (blocks y c P))
  = Some (localDotPartial x y).
Proof.
  intros HP Hx Hy. rewrite <- (partials_total c P x y Hx Hy).
  destruct P as [|P]; [lia|]. rewrite !blocks_S. cbn [zip_with sum_partials foldl].
  now rewrite Rplus_0_l.
Qed.

(** A run of the MPI program in exact arithmetic: the value reported is
    the square of the scalar times the dot product of the generated
    vectors, whatever the number of processes. *)
Lemma exact_run (P c : nat) (randmax scalar : Z) (rest : list Z) (w : World R) :
  (0 < P)%nat -> (10 <= P * c)%nat -> 0 < randmax ->
  stdin w = Z.of_nat (P * c) :: randmax :: scalar :: rest ->
  mallocs w = [] ->
  let n := (P * c)%nat in
  let x := generated (rand_seq w) (rand_pos w) n randmax in
  let y := generated (rand_seq w) (rand_pos w + n) n randmax in
  exists w',
    Mpi.main P w = Ret 0 w'
    /\ stdout w'
       = stdout w ++ mpi_transcript (Z.of_nat n) scalar x y
                       (IZR scalar * IZR scalar * localDotPartial x y)%R
    /\ stdin w' = rest
    /\ stderr w' = stderr w.
Proof.
  intros HP Hn Hrm Hin Hm n x y.
  destruct (Mpi_main_run P c randmax scalar rest w HP Hn Hrm Hin Hm)
    as (dot & w' & Hdot & Hrun & Hout & Hrest & Herr).
  exists w'. repeat split; try assumption.
  rewrite Hout. do 2 f_equal. fold n x y in Hdot.
  rewrite !blocks_scale in Hdot.
  rewrite sum_partials_total in Hdot;
    try (unfold scale; rewrite length_fmap; apply length_generated); try exact HP.
  rewrite localDotPartial_scale in Hdot. congruence.
Qed.
End ExactAlgebra.

(** ** Runs that stop at a validation *)

Section Rejections.
Context {D : Type} `{!DoubleOps D}.

Lemma main_bad_order (comm_sz : nat) (n : Z) (rest : list Z) (w : World D) :
  (0 < comm_sz)%nat -> stdin w = n :: rest ->
  n < 0 \/ Z.rem n (Z.of_nat comm_sz) <> 0 ->
  Mpi.main comm_sz w
  = Exit (-1)
      (put_stderr
         [("Proc 0 > In Read_n, n should be >= 100,000 and evenly divisible by comm_sz"
             ++ nl)%string]
         (put_stdout [Str ("What's the order of the vectors?" ++ nl)%string]
            (set_stdin rest w))).
Proof.
  intros HP Hin Hbad. unfold Mpi.main.
  erewrite bind_Exit; [reflexivity|].
  rewrite (Read_n_run comm_sz n rest w HP Hin). cbv zeta.
  apply Read_n_local_ok_0 in Hbad. now rewrite Hbad.
Qed.

Lemma main_bad_bound (comm_sz : nat) (n randmax : Z) (rest : list Z)
    (w : World D) :
  (0 < comm_sz)%nat -> stdin w = n :: randmax :: rest ->
  ~ (n < 0 \/ Z.rem n (Z.of_nat comm_sz) <> 0) -> randmax < 0 ->
  Mpi.main comm_sz w
  = Exit (-1)
      (put_stderr
         [("Proc 0 > In Read_RandMax, randmax should be >= 100,000" ++ nl)%string]
         (put_stdout [Str ("What's the order of the vectors?" ++ nl)%string;
                      Str ("What's the max number for random?" ++ nl)%string]
            (set_stdin rest w))).
Proof.
  intros HP Hin Hgood Hneg. unfold Mpi.main.
  erewrite bind_Ret; cycle 1.
  { rewrite (Read_n_run comm_sz n (randmax :: rest) w HP Hin). cbv zeta.
    destruct (Z.eqb_spec (Mpi.Read_n_local_ok n comm_sz) 0) as [E|_];
      [|reflexivity].
    apply Read_n_local_ok_0 in E. contradiction. }
  cbv beta iota.
  erewrite bind_Exit; cycle 1.
  { erewrite Read_RandMax_run by (try exact HP; reflexivity). cbv zeta.
    destruct (Z.ltb_spec randmax 0); [reflexivity|lia]. }
  unfold put_stderr, put_stdout, set_stdin. simpl. now rewrite <- app_assoc.
Qed.
End Rejections.

(** ** The functions of the serial program *)

Section SerialFunctions.
Context {D : Type} `{!DoubleOps D}.

Lemma Serial_Read_n_run (n : Z) (rest : list Z) (w : World D) :
  stdin w = n :: rest ->
  Serial.Read_n w
  = let asked :=
      put_stdout [Str ("What's the order of the vectors?" ++ nl)%string]
        (set_stdin rest w) in
    if n <=? 0
    then Exit (-1) (put_stderr [("Order should be positive" ++ nl)%string] asked)
    else Ret n asked.
Proof.
  intros Hin. unfold Serial.Read_n.
  erewrite bind_Ret by reflexivity.
  erewrite bind_Ret by (apply scanf_d_Ret; exact Hin).
  destruct (n <=? 0); reflexivity.
Qed.

Lemma Serial_Read_RandMax_run (randmax : Z) (rest : list Z) (w : World D) :
  stdin w = randmax :: rest ->
  Serial.Read_RandMax w
  = Ret randmax
      (put_stdout [Str ("What's the max number for random?" ++ nl)%string]
         (set_stdin rest w)).
Proof.
  intros Hin. unfold Serial.Read_RandMax.
  erewrite bind_Ret by reflexivity.
  erewrite bind_Ret by (apply scanf_d_Ret; exact Hin).
  reflexivity.
Qed.

Lemma Serial_Allocate_vectors_run (n : Z) (w : World D) :
  Serial.Allocate_vectors n w
  = if three_ok 0 w
    then Ret (Mpi.fresh n, Mpi.fresh n, Mpi.fresh n) (after_mallocs 0 3 w)
    else Exit (-1)
           (put_stderr [("Can't allocate vectors" ++ nl)%string]
              (after_mallocs 0 3 w)).
Proof.
  unfold Serial.Allocate_vectors.
  erewrite bind_Ret by apply malloc_general.
  erewrite bind_Ret by apply malloc_general.
  erewrite bind_Ret by apply malloc_general.
  rewrite !after_mallocs_add, !pending_after_same, !malloc_result_drop.
  unfold three_ok. cbn [Nat.add].
  destruct (malloc_result (pending 0 w) 0), (malloc_result (pending 0 w) 1),
    (malloc_result (pending 0 w) 2); reflexivity.
Qed.

Lemma Serial_Generate_vector_run (a : list D) (vec_name : string)
    (randmax : Z) (w : World D) :
  randmax <> 0 ->
  Serial.Generate_vector a (Z.of_nat (length a)) vec_name randmax w
  = Ret (generated (rand_seq w) (rand_pos w) (length a) randmax)
      (put_stdout [Str "Vector "; Str vec_name; Str (" generated ..." ++ nl)%string]
         (set_rand_pos (rand_pos w + length a) w)).
Proof.
  intros Hrm. unfold Serial.Generate_vector.
  erewrite bind_Ret; cycle 1.
  { rewrite for_range_length. exact (fill_loop randmax a Hrm [] w). }
  erewrite bind_Ret by reflexivity. reflexivity.
Qed.

(** The listing loop of [Print_vector]: [k] elements from position [i]
    on, all in range. *)
Lemma listing_loop (b : list D) (k : nat) :
  forall (i : nat) (w : World D),
    (i + k <= length b)%nat ->
    for_from k (Z.of_nat i)
      (fun i _ => v ← read b i; printf [Lf v; Str " "]) tt w
    = Ret tt (put_stdout (take k (drop i b) ≫= (fun v => [Lf v; Str " "])) w).
Proof.
  induction k as [|k IH]; intros i w Hik.
  - cbn [for_from take]. unfold mret, M_ret. simpl.
    now rewrite put_stdout_nil.
  - destruct (lookup_lt_is_Some_2 b i) as [v Hv]; [lia|].
    cbn [for_from].
    erewrite bind_Ret; cycle 1.
    { erewrite bind_Ret by (apply read_Ret; exact Hv). reflexivity. }
    replace (Z.of_nat i + 1) with (Z.of_nat (S i)) by lia.
    rewrite IH by lia. rewrite put_stdout_app.
    rewrite (drop_S b v i Hv). reflexivity.
Qed.

(** The listing loop runs into the end of a vector that is too short. *)
Lemma listing_loop_short (b : list D) (k : nat) :
  forall (i : nat) (w : World D),
    (i <= length b)%nat -> (length b < i + k)%nat ->
    for_from k (Z.of_nat i)
      (fun i _ => v ← read b i; printf [Lf v; Str " "]) tt w
    = Undef.
Proof.
  induction k as [|k IH]; intros i w Hi Hik; [lia|].
  cbn [for_from].
  destruct (decide (i = length b)) as [->|Hne].
  - apply bind_Undef. apply bind_Undef. apply read_Undef. lia.
  - destruct (lookup_lt_is_Some_2 b i) as [v Hv]; [lia|].
    erewrite bind_Ret; cycle 1.
    { erewrite bind_Ret by (apply read_Ret; exact Hv). reflexivity. }
    replace (Z.of_nat i + 1) with (Z.of_nat (S i)) by lia.
    apply IH; lia.
Qed.

Lemma Print_vector_Ret (b : list D) (title : string) (w : World D) :
  Serial.Print_vector b (Z.of_nat (length b)) title w
  = Ret tt (put_stdout (listing b title) w).
Proof.
  unfold Serial.Print_vector.
  erewrite bind_Ret by reflexivity.
  erewrite bind_Ret; cycle 1.
  { rewrite for_range_length. apply (listing_loop b (length b) 0). lia. }
  unfold printf. rewrite !put_stdout_app. unfold listing.
  change (drop 0 b) with b. now rewrite (take_ge b (length b) (Nat.le_refl _)).
Qed.

Lemma Print_vector_short (b : list D) (n : nat) (title : string) (w : World D) :
  (length b < n)%nat ->
  Serial.Print_vector b (Z.of_nat n) title w = Undef.
Proof.
  intros Hn. unfold Serial.Print_vector.
  erewrite bind_Ret by reflexivity.
  apply bind_Undef. rewrite for_range_length.
  apply (listing_loop_short b n 0); lia.
Qed.

Lemma Serial_PrintTopDown_is_summary (b : list D) (n : Z) (title : string)
    (w : World D) :
  Serial.PrintTopDown_vector b n title w = Mpi.print_summary b n title w.
Proof. reflexivity. Qed.
End SerialFunctions.

(** ** Runs of the serial program that do not reach the end *)

Section SerialFailures.
Context {D : Type} `{!DoubleOps D}.

Lemma Serial_main_bad_order (n : Z) (rest : list Z) (w : World D) :
  stdin w = n :: rest -> n <= 0 ->
  Serial.main w
  = Exit (-1)
      (put_stderr [("Order should be positive" ++ nl)%string]
         (put_stdout [Str ("What's the order of the vectors?" ++ nl)%string]
            (set_stdin rest w))).
Proof.
  intros Hin Hn. unfold Serial.main.
  erewrite bind_Exit; [reflexivity|].
  rewrite (Serial_Read_n_run n rest w Hin). cbv zeta.
  destruct (Z.leb_spec n 0); [reflexivity|lia].
Qed.

Lemma Serial_main_zero_bound (n : nat) (rest : list Z) (w : World D) :
  stdin w = Z.of_nat n :: 0 :: rest -> (0 < n)%nat -> three_ok 0 w = true ->
  Serial.main w = Undef.
Proof.
  intros Hin Hn Hok. unfold Serial.main.
  erewrite bind_Ret; cycle 1.
  { rewrite (Serial_Read_n_run (Z.of_nat n) (0 :: rest) w Hin). cbv zeta.
    destruct (Z.leb_spec (Z.of_nat n) 0); [lia|reflexivity]. }
  erewrite bind_Ret by (apply Serial_Read_RandMax_run; reflexivity).
  erewrite bind_Ret; cycle 1.
  { rewrite Serial_Allocate_vectors_run.
    change (three_ok 0 _) with (three_ok 0 w). rewrite Hok. reflexivity. }
  cbv beta iota.
  apply bind_Undef. unfold Serial.Generate_vector. apply bind_Undef.
  apply fill_random_zero. lia.
Qed.

Lemma Serial_main_short_order (n : nat) (randmax : Z) (rest : list Z)
    (w : World D) :
  stdin w = Z.of_nat n :: randmax :: rest ->
  (0 < n < 10)%nat -> randmax <> 0 -> three_ok 0 w = true ->
  Serial.main w = Undef.
Proof.
  intros Hin Hn Hrm Hok. unfold Serial.main.
  assert (Hgen : forall (name : string) (w0 : World D),
             Serial.Generate_vector (Mpi.fresh (Z.of_nat n)) (Z.of_nat n) name randmax w0
             = Ret (generated (rand_seq w0) (rand_pos w0) n randmax)
                 (put_stdout [Str "Vector "; Str name;
                              Str (" generated ..." ++ nl)%string]
                    (set_rand_pos (rand_pos w0 + n) w0))).
  { intros name w0.
    pose proof (Serial_Generate_vector_run (Mpi.fresh (Z.of_nat n)) name randmax w0 Hrm)
      as Hrun.
    rewrite length_fresh in Hrun. exact Hrun. }
  assert (Hshort : forall (b : list D) (title : string) (w0 : World D),
             length b = n ->
             Serial.PrintTopDown_vector b (Z.of_nat n) title w0 = Undef).
  { intros b title w0 <-. rewrite Serial_PrintTopDown_is_summary.
    apply print_summary_short. lia. }
  erewrite bind_Ret; cycle 1.
  { rewrite (Serial_Read_n_run (Z.of_nat n) (randmax :: rest) w Hin). cbv zeta.
    destruct (Z.leb_spec (Z.of_nat n) 0); [lia|reflexivity]. }
  erewrite bind_Ret by (apply Serial_Read_RandMax_run; reflexivity).
  erewrite bind_Ret; cycle 1.
  { rewrite Serial_Allocate_vectors_run.
    change (three_ok 0 _) with (three_ok 0 w). rewrite Hok. reflexivity. }
  cbv beta iota.
  erewrite bind_Ret by apply Hgen.
  erewrite bind_Ret by apply Hgen.
  apply bind_Undef. apply Hshort. apply length_generated.
Qed.

Lemma Serial_main_allocation_failure (n randmax : Z) (rest : list Z)
    (w : World D) :
  stdin w = n :: randmax :: rest -> 0 < n -> three_ok 0 w = false ->
  verdict_of (Serial.main w)
  = (Exited (-1), stderr w ++ [("Can't allocate vectors" ++ nl)%string]).
Proof.
  intros Hin Hn Hok. unfold Serial.main.
  erewrite bind_Ret; cycle 1.
  { rewrite (Serial_Read_n_run n (randmax :: rest) w Hin). cbv zeta.
    destruct (Z.leb_spec n 0); [lia|reflexivity]. }
  erewrite bind_Ret by (apply Serial_Read_RandMax_run; reflexivity).
  erewrite bind_Exit; cycle 1.
  { rewrite Serial_Allocate_vectors_run.
    change (three_ok 0 _) with (three_ok 0 w). rewrite Hok. reflexivity. }
  reflexivity.
Qed.
End SerialFailures.

(** * Further results *)

Section MpiFunctionResults.
Context {D : Type} `{!DoubleOps D}.

(** X1.  [Check_for_error] on arbitrary integer flags of a non-empty
    group follows the least flag.  With flags that are all non-negative
    it aborts the group as soon as one flag is 0; without a flag 0 it
    returns; and a negative flag on any rank makes it return even when
    other ranks flagged 0. *)
Theorem error_check_follows_least_flag (v : Z) (vs : per_rank Z)
    (fname message : string) (w : World D) :
  (Forall (fun f => 0 <= f) (v :: vs) -> 0 ∈ v :: vs ->
   Mpi.Check_for_error (v :: vs) fname message w
   = Exit (-1)
       (put_stderr [("Proc 0 > In " ++ fname ++ ", " ++ message ++ nl)%string] w))
  /\ (0 ∉ v :: vs -> Mpi.Check_for_error (v :: vs) fname message w = Ret tt w)
  /\ (forall f, f ∈ v :: vs -> f < 0 ->
      Mpi.Check_for_error (v :: vs) fname message w = Ret tt w).
Proof.
  pose proof (foldl_min_elem vs v) as Helem.
  split; [|split].
  - intros Hpos Hzero. rewrite Check_for_error_min.
    pose proof (foldl_min_le vs v 0 Hzero) as Hle.
    pose proof (proj1 (Forall_forall _ _) Hpos _ Helem) as Hge. simpl in Hge.
    replace (foldl Z.min v vs) with 0 by lia. reflexivity.
  - intros Hno. rewrite Check_for_error_min.
    destruct (Z.eqb_spec (foldl Z.min v vs) 0) as [E|_]; [|reflexivity].
    rewrite E in Helem. contradiction.
  - intros f Hf Hneg. rewrite Check_for_error_min.
    pose proof (foldl_min_le vs v f Hf) as Hle.
    destruct (Z.eqb_spec (foldl Z.min v vs) 0) as [E|_]; [lia|reflexivity].
Qed.

(** X2.  With the bound next on the input and a group of
    [comm_sz >= 1] processes, [Read_RandMax] aborts the group exactly on
    a negative bound; every other bound, 0 included, reaches every rank
    unchanged. *)
Theorem Read_RandMax_rejects_negative_only (comm_sz : nat) (randmax : Z)
    (rest : list Z) (w : World D) :
  (0 < comm_sz)%nat -> stdin w = randmax :: rest ->
  (randmax < 0 ->
   Mpi.Read_RandMax comm_sz w
   = Exit (-1)
       (put_stderr
          [("Proc 0 > In Read_RandMax, randmax should be >= 100,000" ++ nl)%string]
          (put_stdout [Str ("What's the max number for random?" ++ nl)%string]
             (set_stdin rest w))))
  /\ (0 <= randmax ->
      Mpi.Read_RandMax comm_sz w
      = Ret (replicate comm_sz randmax)
          (put_stdout [Str ("What's the max number for random?" ++ nl)%string]
             (set_stdin rest w))).
Proof.
  intros HP Hin.
  rewrite (Read_RandMax_run comm_sz randmax rest w HP Hin). cbv zeta.
  destruct (Z.ltb_spec randmax 0); split; intros; try reflexivity; lia.
Qed.

(** X3.  [Allocate_vectors] on a non-empty group is all or nothing.  If
    none of the three allocations of any rank fails, every rank gets three
    blocks of its [local_n] cells; if one of them fails on any rank, every
    process exits with -1 and rank 0 reports it.  Either way every rank
    made its three calls, and nothing else of the world changed. *)
Theorem Allocate_vectors_all_or_nothing (local_n : per_rank Z) (w : World D) :
  local_n <> [] ->
  ((forall r k, (r < length local_n)%nat -> (k < 3)%nat ->
      pending r w !! k <> Some false) ->
   Mpi.Allocate_vectors local_n w
   = Ret (Mpi.fresh <$> local_n, Mpi.fresh <$> local_n, Mpi.fresh <$> local_n)
       (after_allocation (length local_n) w))
  /\ ((exists r k, (r < length local_n)%nat /\ (k < 3)%nat
                   /\ pending r w !! k = Some false) ->
      Mpi.Allocate_vectors local_n w
      = Exit (-1)
          (put_stderr
             [("Proc 0 > In Allocate_vectors, Can't allocate local vector(s)"
                 ++ nl)%string]
             (after_allocation (length local_n) w))).
Proof.
  intros Hne. rewrite (Allocate_vectors_general local_n w Hne).
  pose proof (group_allocation_ok (length local_n) w) as Hok.
  destruct (all_healthy _) eqn:E; split.
  - reflexivity.
  - intros (r & k & Hr & Hk & Hfail). exfalso.
    now apply (proj1 Hok eq_refl r k Hr Hk).
  - intros Hall. apply Hok in Hall. discriminate.
  - reflexivity.
Qed.

(** X4.  When the root's allocation succeeds, the bound is positive and
    [rand()] returns non-negative values, [Generate_vector] consumes
    exactly [n = P * c] values of [rand()], writes nothing, and hands rank
    [r] the block whose cell [j] is [rand() % randmax] of the call number
    [r * c + j], an integer of [0 .. randmax - 1]; the blocks put together
    are the vector generated at the root. *)
Theorem Generate_vector_delivers_random_blocks (P c : nat) (randmax : Z)
    (w : World D) :
  (0 < P)%nat -> 0 < randmax -> (forall k, 0 <= rand_seq w k) ->
  malloc_result (pending 0 w) 0 = true ->
  exists bs : per_rank (list D),
    Mpi.Generate_vector (Mpi.fresh <$> replicate P (Z.of_nat c))
      (replicate P (Z.of_nat c)) (replicate P (Z.of_nat (P * c)))
      (replicate P randmax) w
    = Ret bs (set_rand_pos (rand_pos w + P * c) (after_mallocs 0 1 w))
    /\ length bs = P
    /\ concat bs = generated (rand_seq w) (rand_pos w) (P * c) randmax
    /\ forall r blk j, bs !! r = Some blk -> (j < c)%nat ->
         exists v, blk !! j = Some (of_int v)
                   /\ v = Z.rem (rand_seq w (rand_pos w + (r * c + j))%nat) randmax
                   /\ 0 <= v < randmax.
Proof.
  intros HP Hrm Hrs Hok.
  set (a := generated (D:=D) (rand_seq w) (rand_pos w) (P * c) randmax).
  assert (Ha : length a = (P * c)%nat) by apply length_generated.
  exists (blocks a c P). split; [|split; [|split]].
  - apply Generate_vector_general; [exact HP|lia|exact Hok].
  - apply length_blocks.
  - apply concat_blocks, Ha.
  - intros r blk j Hr Hj.
    pose proof (lookup_lt_Some _ _ _ Hr) as HrP. rewrite length_blocks in HrP.
    destruct (blocks_lookup a c P r blk (Nat.eq_le_incl _ _ (eq_sym Ha)) Hr)
      as [_ Hcell].
    exists (Z.rem (rand_seq w (rand_pos w + (r * c + j))%nat) randmax).
    split; [|split; [reflexivity|]].
    + rewrite (Hcell j Hj). unfold a, generated.
      rewrite list_lookup_fmap, lookup_seq_lt by nia. reflexivity.
    + apply Z.rem_bound_pos; [apply Hrs|exact Hrm].
Qed.

(** X5.  When the root cannot allocate its temporary vector,
    [Generate_vector] makes every process exit with -1 after rank 0
    reported it: no value of [rand()] is consumed and nothing is written
    to [stdout]. *)
Theorem Generate_vector_root_allocation_failure (a : list D)
    (local_a : per_rank (list D)) (ln n rm : Z) (local_n ns randmax : per_rank Z)
    (w : World D) :
  malloc_result (pending 0 w) 0 = false ->
  Mpi.Generate_vector (a :: local_a) (ln :: local_n) (n :: ns) (rm :: randmax) w
  = Exit (-1)
      (put_stderr
         [("Proc 0 > In Generate_vector, Can't allocate temporary vector" ++ nl)%string]
         (after_mallocs 0 1 w)).
Proof. apply Generate_vector_failure. Qed.

(** X6.  [PrintTopDown_vector] on blocks of [c] cells held by [P >= 1]
    ranks.  If the root cannot allocate the gather buffer, the group exits
    with -1 and nothing is printed.  Otherwise, with [P * c >= 10] it
    prints the summary of the blocks put together in rank order, and with
    [P * c < 10] it reads outside the gathered vector. *)
Theorem PrintTopDown_vector_outcomes (P c : nat) (bs : per_rank (list D))
    (title : string) (w : World D) :
  (0 < P)%nat -> length bs = P -> Forall (fun blk => length blk = c) bs ->
  (malloc_result (pending 0 w) 0 = false ->
   Mpi.PrintTopDown_vector bs (replicate P (Z.of_nat c))
     (replicate P (Z.of_nat (P * c))) title w
   = Exit (-1)
       (put_stderr
          [("Proc 0 > In PrintTopDown_vector, Can't allocate temporary vector"
              ++ nl)%string]
          (after_mallocs 0 1 w)))
  /\ (malloc_result (pending 0 w) 0 = true -> (10 <= P * c)%nat ->
      Mpi.PrintTopDown_vector bs (replicate P (Z.of_nat c))
        (replicate P (Z.of_nat (P * c))) title w
      = Ret tt (put_stdout (summary (concat bs) (Z.of_nat (P * c)) title)
                  (after_mallocs 0 1 w)))
  /\ (malloc_result (pending 0 w) 0 = true -> (P * c < 10)%nat ->
      Mpi.PrintTopDown_vector bs (replicate P (Z.of_nat c))
        (replicate P (Z.of_nat (P * c))) title w
      = Undef).
Proof.
  intros HP Hlen Hbs.
  rewrite (PrintTopDown_vector_general P c bs title w HP Hlen Hbs).
  pose proof (length_concat_uniform c bs Hbs) as Hc. rewrite Hlen in Hc.
  split; [|split].
  - intros ->. reflexivity.
  - intros -> Hn. now apply (print_summary_Ret (concat bs) (P * c)).
  - intros -> Hn. rewrite <- Hc. apply print_summary_short. lia.
Qed.

(** X9.  A run of [main] stops at the first invalid parameter.  On an
    invalid order it exits with -1 after the first prompt, the bound and
    the scalar still unread; on a valid order and a negative bound it
    exits with -1 after the second prompt.  In both cases no allocation
    was made and no value of [rand()] consumed. *)
Theorem main_stops_at_first_invalid_parameter (comm_sz : nat) (n randmax : Z)
    (rest : list Z) (w : World D) :
  (0 < comm_sz)%nat -> stdin w = n :: randmax :: rest ->
  (n < 0 \/ Z.rem n (Z.of_nat comm_sz) <> 0 ->
   Mpi.main comm_sz w
   = Exit (-1)
       (put_stderr
          [("Proc 0 > In Read_n, n should be >= 100,000 and evenly divisible by comm_sz"
              ++ nl)%string]
          (put_stdout [Str ("What's the order of the vectors?" ++ nl)%string]
             (set_stdin (randmax :: rest) w))))
  /\ (~ (n < 0 \/ Z.rem n (Z.of_nat comm_sz) <> 0) -> randmax < 0 ->
      Mpi.main comm_sz w
      = Exit (-1)
          (put_stderr
             [("Proc 0 > In Read_RandMax, randmax should be >= 100,000" ++ nl)%string]
             (put_stdout [Str ("What's the order of the vectors?" ++ nl)%string;
                          Str ("What's the max number for random?" ++ nl)%string]
                (set_stdin rest w)))).
Proof.
  intros HP Hin. split.
  - intros Hbad. exact (main_bad_order comm_sz n (randmax :: rest) w HP Hin Hbad).
  - intros Hgood Hneg.
    exact (main_bad_bound comm_sz n randmax rest w HP Hin Hgood Hneg).
Qed.

(** X10.  A run of [main] on [P >= 1] processes to its end: with an order
    [n = P * c >= 10], a positive bound, three integers on the input and
    no failing allocation, [main] returns 0 and has written, in this
    order, the two prompts, the summaries of [x] and of [y] (the first
    [n] and the next [n] values of [rand() % randmax]), the prompt of the
    scalar, the summaries of the scaled [x] and [y], the reduced dot
    product of the scaled blocks, and the line of the elapsed time;
    nothing is written to [stderr]. *)
Theorem mpi_run_transcript (P c : nat) (randmax scalar : Z) (rest : list Z)
    (w : World D) :
  (0 < P)%nat -> (10 <= P * c)%nat -> 0 < randmax ->
  stdin w = Z.of_nat (P * c) :: randmax :: scalar :: rest ->
  mallocs w = [] ->
  exists dot w',
    sum_partials
      (zip_with localDotPartial
         ((fun blk => scale blk scalar)
            <$> blocks (generated (rand_seq w) (rand_pos w) (P * c) randmax) c P)
         ((fun blk => scale blk scalar)
            <$> blocks (generated (rand_seq w) (rand_pos w + P * c) (P * c) randmax)
                  c P))
    = Some dot
    /\ Mpi.main P w = Ret 0 w'
    /\ stdout w'
       = stdout w
           ++ mpi_transcript (Z.of_nat (P * c)) scalar
                (generated (rand_seq w) (rand_pos w) (P * c) randmax)
                (generated (rand_seq w) (rand_pos w + P * c) (P * c) randmax) dot
    /\ stdin w' = rest
    /\ stderr w' = stderr w.
Proof. intros HP Hn Hrm Hin Hm. exact (Mpi_main_run P c randmax scalar rest w HP Hn Hrm Hin Hm). Qed.
End MpiFunctionResults.

Section ExactResults.

(** X7.  In exact arithmetic scaling a block by [k1] and then by [k2] is
    scaling it once by [k1 * k2], and scaling by 1 leaves the block as it
    was. *)
Theorem scaling_composes_exactly (k1 k2 : Z) (arr : list R) (r : nat)
    (w : World R) :
  (arr1 ← Mpi.Parallel_vector_scalar k1 arr (Z.of_nat (length arr)) r;
   Mpi.Parallel_vector_scalar k2 arr1 (Z.of_nat (length arr)) r) w
  = Mpi.Parallel_vector_scalar (k1 * k2) arr (Z.of_nat (length arr)) r w
  /\ Mpi.Parallel_vector_scalar 1 arr (Z.of_nat (length arr)) r w = Ret arr w.
Proof.
  split.
  - erewrite bind_Ret by apply Parallel_vector_scalar_Ret.
    replace (length arr) with (length (scale arr k1)) at 1
      by (unfold scale; apply length_fmap).
    rewrite !Parallel_vector_scalar_Ret. now rewrite scale_scale.
  - rewrite Parallel_vector_scalar_Ret. now rewrite scale_one.
Qed.

(** X8.  In exact arithmetic the local dot product of two blocks of equal
    length does not depend on their order, and scaling both blocks by [k]
    multiplies it by [k * k]. *)
Theorem local_dot_symmetric_and_quadratic (k : Z) (x y : list R) (w : World R) :
  length x = length y ->
  Mpi.local_dot x y (Z.of_nat (length x)) w
  = Mpi.local_dot y x (Z.of_nat (length x)) w
  /\ Mpi.local_dot (scale x k) (scale y k) (Z.of_nat (length x)) w
     = Ret (IZR k * IZR k * localDotPartial x y)%R w.
Proof.
  intros Hlen. split.
  - rewrite (local_dot_Ret x y w Hlen). rewrite Hlen.
    rewrite (local_dot_Ret y x w (eq_sym Hlen)). now rewrite localDotPartial_comm.
  - replace (length x) with (length (scale x k)) by (unfold scale; apply length_fmap).
    rewrite local_dot_Ret by (unfold scale; rewrite !length_fmap; exact Hlen).
    now rewrite localDotPartial_scale.
Qed.

(** X11.  In exact arithmetic, a run of [main] to its end reports the
    square of the scalar times the dot product of the two generated
    (unscaled) vectors. *)
Theorem exact_run_reports_scaled_dot (P c : nat) (randmax scalar : Z)
    (rest : list Z) (w : World R) :
  (0 < P)%nat -> (10 <= P * c)%nat -> 0 < randmax ->
  stdin w = Z.of_nat (P * c) :: randmax :: scalar :: rest ->
  mallocs w = [] ->
  exists w',
    Mpi.main P w = Ret 0 w'
    /\ stdout w'
       = stdout w
           ++ mpi_transcript (Z.of_nat (P * c)) scalar
                (generated (rand_seq w) (rand_pos w) (P * c) randmax)
                (generated (rand_seq w) (rand_pos w + P * c) (P * c) randmax)
                (IZR scalar * IZR scalar
                 * localDotPartial
                     (generated (rand_seq w) (rand_pos w) (P * c) randmax)
                     (generated (rand_seq w) (rand_pos w + P * c) (P * c) randmax))%R
    /\ stdin w' = rest
    /\ stderr w' = stderr w.
Proof.
  intros HP Hn Hrm Hin Hm.
  exact (exact_run P c randmax scalar rest w HP Hn Hrm Hin Hm).
Qed.

(** X12.  In exact arithmetic the output of a run of [main] does not
    depend on the number of processes: on the same input and the same
    sequence of [rand()], two group sizes that both divide the order
    [n >= 10] give runs that return with the same [stdout], and both leave
    [stderr] as it was. *)
Theorem output_independent_of_worker_count (P1 c1 P2 c2 : nat)
    (randmax scalar : Z) (rest : list Z) (w : World R) :
  (0 < P1)%nat -> (0 < P2)%nat -> (P1 * c1 = P2 * c2)%nat ->
  (10 <= P1 * c1)%nat -> 0 < randmax ->
  stdin w = Z.of_nat (P1 * c1) :: randmax :: scalar :: rest ->
  mallocs w = [] ->
  stdout_of (Mpi.main P1 w) = stdout_of (Mpi.main P2 w)
  /\ verdict_of (Mpi.main P1 w) = (Returned, stderr w)
  /\ verdict_of (Mpi.main P2 w) = (Returned, stderr w).
Proof.
  intros HP1 HP2 Hsame Hn Hrm Hin Hm.
  destruct (exact_run P1 c1 randmax scalar rest w HP1 Hn Hrm Hin Hm)
    as (w1 & Hr1 & Ho1 & _ & He1).
  rewrite Hsame in Hn, Hin.
  destruct (exact_run P2 c2 randmax scalar rest w HP2 Hn Hrm Hin Hm)
    as (w2 & Hr2 & Ho2 & _ & He2).
  rewrite Hr1, Hr2. simpl. rewrite Ho1, Ho2, He1, He2, Hsame.
  repeat split.
Qed.
End ExactResults.

Section SerialResults.
Context {D : Type} `{!DoubleOps D}.

(** X13.  The serial [Read_n] accepts exactly the positive orders: on
    [n <= 0] (0 included, which the MPI program accepts) it writes
    [Order should be positive] to [stderr] and exits with -1; on [n > 0]
    it returns [n]. *)
Theorem Serial_Read_n_requires_positive_order (n : Z) (rest : list Z)
    (w : World D) :
  stdin w = n :: rest ->
  (n <= 0 ->
   Serial.Read_n w
   = Exit (-1)
       (put_stderr [("Order should be positive" ++ nl)%string]
          (put_stdout [Str ("What's the order of the vectors?" ++ nl)%string]
             (set_stdin rest w))))
  /\ (0 < n ->
      Serial.Read_n w
      = Ret n (put_stdout [Str ("What's the order of the vectors?" ++ nl)%string]
                 (set_stdin rest w))).
Proof.
  intros Hin. rewrite (Serial_Read_n_run n rest w Hin). cbv zeta.
  destruct (Z.leb_spec n 0); split; intros; try reflexivity; lia.
Qed.

(** X14.  The serial [Allocate_vectors] makes its three allocations and
    then decides: if none failed it returns three vectors of [n] cells, if
    any failed it writes [Can't allocate vectors] to [stderr] and exits
    with -1. *)
Theorem Serial_Allocate_vectors_all_or_nothing (n : Z) (w : World D) :
  ((forall k, (k < 3)%nat -> pending 0 w !! k <> Some false) ->
   Serial.Allocate_vectors n w
   = Ret (Mpi.fresh n, Mpi.fresh n, Mpi.fresh n) (after_mallocs 0 3 w))
  /\ ((exists k, (k < 3)%nat /\ pending 0 w !! k = Some false) ->
      Serial.Allocate_vectors n w
      = Exit (-1)
          (put_stderr [("Can't allocate vectors" ++ nl)%string]
             (after_mallocs 0 3 w))).
Proof.
  rewrite Serial_Allocate_vectors_run.
  pose proof (three_ok_true 0 w) as Hok.
  destruct (three_ok 0 w); split.
  - reflexivity.
  - intros (k & Hk & Hfail). exfalso. now apply (proj1 Hok eq_refl k Hk).
  - intros Hall. apply Hok in Hall. discriminate.
  - reflexivity.
Qed.

(** X15.  The serial [Generate_vector] with any bound other than 0,
    negative bounds included (the serial program rejects none): it
    overwrites the whole vector, consumes one value of [rand()] per cell,
    prints the line [Vector <name> generated ...], and with non-negative
    values of [rand()] every cell holds an integer [v] with
    [0 <= v < |randmax|]. *)
Theorem Serial_Generate_vector_any_nonzero_bound (a : list D)
    (vec_name : string) (randmax : Z) (w : World D) :
  randmax <> 0 -> (forall k, 0 <= rand_seq w k) ->
  exists a' : list D,
    Serial.Generate_vector a (Z.of_nat (length a)) vec_name randmax w
    = Ret a'
        (put_stdout [Str "Vector "; Str vec_name; Str (" generated ..." ++ nl)%string]
           (set_rand_pos (rand_pos w + length a) w))
    /\ length a' = length a
    /\ forall i, (i < length a)%nat ->
         exists v, a' !! i = Some (of_int v)
                   /\ v = Z.rem (rand_seq w (rand_pos w + i)%nat) randmax
                   /\ 0 <= v < Z.abs randmax.
Proof.
  intros Hrm Hrs.
  exists (generated (rand_seq w) (rand_pos w) (length a) randmax).
  split; [|split].
  - now apply Serial_Generate_vector_run.
  - apply length_generated.
  - intros i Hi. exists (Z.rem (rand_seq w (rand_pos w + i)%nat) randmax).
    split; [|split; [reflexivity|]].
    + unfold generated. now rewrite list_lookup_fmap, lookup_seq_lt.
    + split.
      * apply Z.rem_nonneg; [exact Hrm|apply Hrs].
      * pose proof (Z.rem_bound_abs (rand_seq w (rand_pos w + i)%nat) randmax Hrm).
        pose proof (Z.rem_nonneg (rand_seq w (rand_pos w + i)%nat) randmax Hrm
                      (Hrs _)).
        lia.
Qed.

(** X16.  [Vector_sum] on three vectors of [n] cells returns normally,
    touches nothing but [z], and leaves in cell [i] of [z] the sum
    [x[i] + y[i]]. *)
Theorem Vector_sum_adds_elementwise (x y z : list D) (n : Z) (w : World D) :
  Z.of_nat (length x) = n -> length y = length x -> length z = length x ->
  exists z' : list D,
    Serial.Vector_sum x y z n w = Ret z' w
    /\ length z' = length x
    /\ forall i a b, x !! i = Some a -> y !! i = Some b ->
                     z' !! i = Some (dadd a b).
Proof.
  intros <- Hy Hz. exists (zip_with dadd x y). split; [|split].
  - apply Vector_sum_Ret; congruence.
  - rewrite length_zip_with. lia.
  - intros i a b Ha Hb. rewrite lookup_zip_with, Ha, Hb. reflexivity.
Qed.

(** X17.  [Print_vector] with the length of the vector prints the title,
    every element in index order followed by a space, and a newline; with
    a greater [n] it reads outside the vector. *)
Theorem Print_vector_lists_every_element (b : list D) (title : string)
    (w : World D) :
  Serial.Print_vector b (Z.of_nat (length b)) title w
  = Ret tt (put_stdout (listing b title) w)
  /\ (forall n, (length b < n)%nat ->
      Serial.Print_vector b (Z.of_nat n) title w = Undef).
Proof.
  split; [apply Print_vector_Ret|]. intros n Hn. now apply Print_vector_short.
Qed.

(** X18.  The runs of the serial [main] that do not reach the end.  On an
    order [n <= 0] it exits with -1 after the first prompt.  On a
    positive order: if one of its three allocations fails it exits with
    -1 and [Can't allocate vectors]; otherwise the bound 0 is accepted
    and the first [rand() % 0] is undefined, and with another bound an
    order below 10 makes the summary read outside the vector. *)
Theorem Serial_main_failures (n : nat) (randmax : Z) (rest : list Z)
    (w : World D) :
  (forall m, m <= 0 -> stdin w = m :: randmax :: rest ->
     Serial.main w
     = Exit (-1)
         (put_stderr [("Order should be positive" ++ nl)%string]
            (put_stdout [Str ("What's the order of the vectors?" ++ nl)%string]
               (set_stdin (randmax :: rest) w))))
  /\ (stdin w = Z.of_nat n :: randmax :: rest -> (0 < n)%nat ->
      three_ok 0 w = false ->
      verdict_of (Serial.main w)
      = (Exited (-1), stderr w ++ [("Can't allocate vectors" ++ nl)%string]))
  /\ (stdin w = Z.of_nat n :: randmax :: rest -> (0 < n)%nat ->
      three_ok 0 w = true -> randmax = 0 ->
      Serial.main w = Undef)
  /\ (stdin w = Z.of_nat n :: randmax :: rest -> (0 < n < 10)%nat ->
      three_ok 0 w = true -> randmax <> 0 ->
      Serial.main w = Undef).
Proof.
  split; [|split; [|split]].
  - intros m Hm Hin. exact (Serial_main_bad_order m (randmax :: rest) w Hin Hm).
  - intros Hin Hn Hfail.
    apply (Serial_main_allocation_failure (Z.of_nat n) randmax rest w Hin); [lia|exact Hfail].
  - intros Hin Hn Hok ->. exact (Serial_main_zero_bound n rest w Hin Hn Hok).
  - intros Hin Hn Hok Hrm.
    exact (Serial_main_short_order n randmax rest w Hin Hn Hrm Hok).
Qed.

(** X19.  The serial program rejects no bound: with an order [n >= 10],
    any bound other than 0 (negative ones included) and no failing
    allocation, the serial [main] runs to its end, returns 0, writes
    nothing to [stderr], and leaves the rest of the input unread. *)
Theorem Serial_main_runs_with_any_nonzero_bound (n : nat) (randmax : Z)
    (rest : list Z) (w : World D) :
  (10 <= n)%nat -> randmax <> 0 ->
  stdin w = Z.of_nat n :: randmax :: rest ->
  mallocs w = [] ->
  exists w',
    Serial.main w = Ret 0 w'
    /\ stdout w'
       = stdout w
           ++ serial_transcript (Z.of_nat n)
                (generated (rand_seq w) (rand_pos w) n randmax)
                (generated (rand_seq w) (rand_pos w + n) n randmax)
    /\ stdin w' = rest
    /\ stderr w' = stderr w.
Proof.
  intros Hn Hrm Hin Hm. exact (Serial_main_run n randmax rest w Hn Hrm Hin Hm).
Qed.
End SerialResults.

(** ** The further results at concrete inputs *)

Lemma error_check_follows_least_flag_witness :
  Mpi.Check_for_error [1; 0; -1] "Read_n" "bad order" (sample_world (D:=float) [])
  = Ret tt (sample_world []).
Proof.
  apply (proj2 (proj2 (error_check_follows_least_flag 1 [0; -1] "Read_n" "bad order"
                         (sample_world (D:=float) []))) (-1)).
  - rewrite !elem_of_cons. auto.
  - lia.
Defined.

Lemma Read_RandMax_rejects_negative_only_witness :
  Mpi.Read_RandMax 3 (sample_world (D:=float) [0; 5])
  = Ret (replicate 3 0)
      (put_stdout [Str ("What's the max number for random?" ++ nl)%string]
         (set_stdin [5] (sample_world [0; 5]))).
Proof.
  destruct (Read_RandMax_rejects_negative_only 3 0 [5] (sample_world (D:=float) [0; 5]))
    as [_ Hok]; [lia|reflexivity|].
  apply Hok. lia.
Defined.

Lemma Allocate_vectors_all_or_nothing_witness :
  Mpi.Allocate_vectors [5; 5]
    (scheduled_world (D:=float) [] [[true; true; true]; [true; false]])
  = Exit (-1)
      (put_stderr
         [("Proc 0 > In Allocate_vectors, Can't allocate local vector(s)" ++ nl)%string]
         (after_allocation 2
            (scheduled_world [] [[true; true; true]; [true; false]]))).
Proof.
  destruct (Allocate_vectors_all_or_nothing [5; 5]
              (scheduled_world (D:=float) [] [[true; true; true]; [true; false]]))
    as [_ Hfail]; [discriminate|].
  apply Hfail. exists 1%nat, 1%nat. repeat split; simpl; lia.
Defined.

Lemma Generate_vector_delivers_random_blocks_witness :
  exists bs : per_rank (list float),
    Mpi.Generate_vector (Mpi.fresh <$> replicate 2 (Z.of_nat 3))
      (replicate 2 (Z.of_nat 3)) (replicate 2 (Z.of_nat (2 * 3)))
      (replicate 2 10) (sample_world [])
    = Ret bs (set_rand_pos (0 + 2 * 3) (after_mallocs 0 1 (sample_world [])))
    /\ length bs = 2%nat.
Proof.
  destruct (Generate_vector_delivers_random_blocks 2 3 10 (sample_world (D:=float) []))
    as (bs & Hrun & Hlen & _); [lia|lia|intros k; simpl; lia|reflexivity|].
  exists bs. split; [exact Hrun|exact Hlen].
Defined.

Lemma Generate_vector_root_allocation_failure_witness :
  Mpi.Generate_vector [Mpi.fresh 5] [5] [5] [10]
    (scheduled_world (D:=float) [] [[false]])
  = Exit (-1)
      (put_stderr
         [("Proc 0 > In Generate_vector, Can't allocate temporary vector" ++ nl)%string]
         (after_mallocs 0 1 (scheduled_world [] [[false]]))).
Proof.
  apply (Generate_vector_root_allocation_failure (Mpi.fresh 5) [] 5 5 10 [] [] []
           (scheduled_world (D:=float) [] [[false]])).
  reflexivity.
Defined.

Lemma PrintTopDown_vector_outcomes_witness :
  Mpi.PrintTopDown_vector [[1; 2; 3; 4; 5]; [6; 7; 8; 9; 10]]%float
    (replicate 2 (Z.of_nat 5)) (replicate 2 (Z.of_nat (2 * 5))) "Vector x"
    (sample_world [])
  = Ret tt
      (put_stdout
         (summary (concat [[1; 2; 3; 4; 5]; [6; 7; 8; 9; 10]]%float)
            (Z.of_nat (2 * 5)) "Vector x")
         (after_mallocs 0 1 (sample_world []))).
Proof.
  destruct (PrintTopDown_vector_outcomes 2 5
              [[1; 2; 3; 4; 5]; [6; 7; 8; 9; 10]]%float "Vector x" (sample_world []))
    as (_ & Hok & _); [lia|reflexivity|repeat constructor|].
  apply Hok; [reflexivity|lia].
Defined.

Lemma local_dot_symmetric_and_quadratic_witness :
  Mpi.local_dot [1; 2]%R [3; 4]%R (Z.of_nat 2) (sample_world [])
  = Mpi.local_dot [3; 4]%R [1; 2]%R (Z.of_nat 2) (sample_world [])
  /\ Mpi.local_dot (scale [1; 2]%R 2) (scale [3; 4]%R 2) (Z.of_nat 2) (sample_world [])
     = Ret (IZR 2 * IZR 2 * localDotPartial [1; 2]%R [3; 4]%R)%R (sample_world []).
Proof.
  apply (local_dot_symmetric_and_quadratic 2 [1; 2]%R [3; 4]%R (sample_world [])).
  reflexivity.
Defined.

Lemma main_stops_at_first_invalid_parameter_witness :
  Mpi.main 4 (sample_world (D:=float) [21; 10; 3])
  = Exit (-1)
      (put_stderr
         [("Proc 0 > In Read_n, n should be >= 100,000 and evenly divisible by comm_sz"
             ++ nl)%string]
         (put_stdout [Str ("What's the order of the vectors?" ++ nl)%string]
            (set_stdin [10; 3] (sample_world [21; 10; 3])))).
Proof.
  destruct (main_stops_at_first_invalid_parameter 4 21 10 [3]
              (sample_world (D:=float) [21; 10; 3]))
    as [Hbad _]; [lia|reflexivity|].
  apply Hbad. right. discriminate.
Defined.

Lemma mpi_run_transcript_witness :
  exists w', Mpi.main 2 (sample_world (D:=float) [10; 10; 3]) = Ret 0 w'
             /\ stdin w' = [] /\ stderr w' = [].
Proof.
  destruct (mpi_run_transcript 2 5 10 3 [] (sample_world (D:=float) [10; 10; 3]))
    as (dot & w' & _ & Hrun & _ & Hin & Herr);
    [lia|lia|lia|reflexivity|reflexivity|].
  exists w'. repeat split; assumption.
Defined.

Lemma exact_run_reports_scaled_dot_witness :
  exists w', Mpi.main 2 (sample_world (D:=R) [10; 10; 3]) = Ret 0 w'
             /\ stdin w' = [] /\ stderr w' = [].
Proof.
  destruct (exact_run_reports_scaled_dot 2 5 10 3 [] (sample_world (D:=R) [10; 10; 3]))
    as (w' & Hrun & _ & Hin & Herr);
    [lia|lia|lia|reflexivity|reflexivity|].
  exists w'. repeat split; assumption.
Defined.

Lemma output_independent_of_worker_count_witness :
  stdout_of (Mpi.main 2 (sample_world (D:=R) [20; 10; 3]))
  = stdout_of (Mpi.main 4 (sample_world (D:=R) [20; 10; 3]))
  /\ verdict_of (Mpi.main 2 (sample_world (D:=R) [20; 10; 3])) = (Returned, [])
  /\ verdict_of (Mpi.main 4 (sample_world (D:=R) [20; 10; 3])) = (Returned, []).
Proof.
  apply (output_independent_of_worker_count 2 10 4 5 10 3 []
           (sample_world (D:=R) [20; 10; 3]));
    [lia|lia|reflexivity|lia|lia|reflexivity|reflexivity].
Defined.

Lemma Serial_Read_n_requires_positive_order_witness :
  Serial.Read_n (sample_world (D:=float) [0; 10])
  = Exit (-1)
      (put_stderr [("Order should be positive" ++ nl)%string]
         (put_stdout [Str ("What's the order of the vectors?" ++ nl)%string]
            (set_stdin [10] (sample_world [0; 10])))).
Proof.
  destruct (Serial_Read_n_requires_positive_order 0 [10]
              (sample_world (D:=float) [0; 10]))
    as [Hbad _]; [reflexivity|].
  apply Hbad. lia.
Defined.

Lemma Serial_Allocate_vectors_all_or_nothing_witness :
  Serial.Allocate_vectors 5 (scheduled_world (D:=float) [] [[true; false]])
  = Exit (-1)
      (put_stderr [("Can't allocate vectors" ++ nl)%string]
         (after_mallocs 0 3 (scheduled_world [] [[true; false]]))).
Proof.
  apply (proj2 (Serial_Allocate_vectors_all_or_nothing 5
                  (scheduled_world (D:=float) [] [[true; false]]))).
  exists 1%nat. split; [lia|reflexivity].
Defined.

Lemma Serial_Generate_vector_any_nonzero_bound_witness :
  exists a' : list float,
    Serial.Generate_vector [0; 0; 0; 0]%float (Z.of_nat 4) "x" (-7) (sample_world [])
    = Ret a'
        (put_stdout [Str "Vector "; Str "x"; Str (" generated ..." ++ nl)%string]
           (set_rand_pos (0 + 4) (sample_world [])))
    /\ length a' = 4%nat.
Proof.
  destruct (Serial_Generate_vector_any_nonzero_bound [0; 0; 0; 0]%float "x" (-7)
              (sample_world []))
    as (a' & Hrun & Hlen & _); [lia|intros k; simpl; lia|].
  exists a'. split; [exact Hrun|exact Hlen].
Defined.

Lemma Vector_sum_adds_elementwise_witness :
  exists z' : list float,
    Serial.Vector_sum [1; 2]%float [3; 4]%float [0; 0]%float 2 (sample_world [])
    = Ret z' (sample_world [])
    /\ length z' = 2%nat.
Proof.
  destruct (Vector_sum_adds_elementwise [1; 2]%float [3; 4]%float [0; 0]%float 2
              (sample_world []))
    as (z' & Hrun & Hlen & _); [reflexivity|reflexivity|reflexivity|].
  exists z'. split; [exact Hrun|exact Hlen].
Defined.

Lemma Print_vector_lists_every_element_witness :
  Serial.Print_vector [1; 2; 3]%float (Z.of_nat 5) "The sum is" (sample_world [])
  = Undef.
Proof.
  apply (proj2 (Print_vector_lists_every_element [1; 2; 3]%float "The sum is"
                  (sample_world []))).
  simpl. lia.
Defined.

Lemma Serial_main_failures_witness :
  Serial.main (sample_world (D:=float) [10; 0; 3]) = Undef.
Proof.
  destruct (Serial_main_failures 10 0 [3] (sample_world (D:=float) [10; 0; 3]))
    as (_ & _ & Hzero & _).
  apply Hzero; [reflexivity|lia|reflexivity|reflexivity].
Defined.

Lemma Serial_main_runs_with_any_nonzero_bound_witness :
  exists w', Serial.main (sample_world (D:=float) [10; -10; 3]) = Ret 0 w'
             /\ stdin w' = [3] /\ stderr w' = [].
Proof.
  destruct (Serial_main_runs_with_any_nonzero_bound 10 (-10) [3]
              (sample_world (D:=float) [10; -10; 3]))
    as (w' & Hrun & _ & Hin & Herr); [lia|lia|reflexivity|reflexivity|].
  exists w'. repeat split; assumption.
Defined.
